(** * Temper: discovery and dispatch of template engines

    A shallow embedding of [temper.js].  A [Temper] object owns three
    caches; [require] loads a template engine through Node's module
    system, [discover] picks the engine for a file from its extension, and
    [compile] normalises the engine's output to [{library, client, server}].

    JavaScript objects used as dictionaries ([Object.create(null)]) are
    finite maps; exceptions are an error monad over the mutable object; the
    calls made to the loader are recorded in a log so that statements about
    "probing" can be written down. *)

From Stdlib Require Import Ascii String.
From stdpp Require Import base gmap strings list.

(** ** JavaScript strings *)

Module JS.

Definition chars (s : string) : list ascii := list_ascii_of_string s.
Definition text (l : list ascii) : string := string_of_list_ascii l.

(** [needle] occurs in [s]: there is text before and after it. *)
Definition includes (s needle : string) : Prop :=
  ∃ before after, s = before +:+ needle +:+ after.

(** What follows [pattern] in [s] when [s] starts with it. *)
Fixpoint strip_prefix (pattern s : string) : option string :=
  match pattern, s with
  | EmptyString, _ => Some s
  | String p pattern', String c s' =>
      if Ascii.eqb p c then strip_prefix pattern' s' else None
  | String _ _, EmptyString => None
  end.

(** [s.indexOf(pattern)], returned as the text before and after the first
    occurrence. *)
Fixpoint split_first (pattern s : string) : option (string * string) :=
  match strip_prefix pattern s with
  | Some after => Some ("", after)
  | None =>
      match s with
      | EmptyString => None
      | String c rest =>
          match split_first pattern rest with
          | Some (before, after) => Some (String c before, after)
          | None => None
          end
      end
  end.

(** GetSubstitution for a string pattern (no capture groups): in the
    replacement text [$$] is a dollar sign, [$&] the matched text, [$`] the
    text before the match and [$'] the text after it; a dollar sign followed
    by anything else stands for itself. *)
Fixpoint substitution (matched before after replacement : string) : string :=
  match replacement with
  | EmptyString => ""
  | String "$" (String "$" rest) =>
      "$" +:+ substitution matched before after rest
  | String "$" (String "&" rest) =>
      matched +:+ substitution matched before after rest
  | String "$" (String "`" rest) =>
      before +:+ substitution matched before after rest
  | String "$" (String "'" rest) =>
      after +:+ substitution matched before after rest
  | String c rest => String c (substitution matched before after rest)
  end.

(** [s.replace(pattern, replacement)] with a string pattern: only the first
    occurrence is replaced. *)
Definition replace (s pattern replacement : string) : string :=
  match split_first pattern s with
  | None => s
  | Some (before, after) =>
      before +:+ substitution pattern before after replacement +:+ after
  end.

(** [list.join(separator)] on an array of strings. *)
Definition join (separator : string) (list : list string) : string :=
  String.concat separator list.

End JS.

(** ** Node's [path] module (POSIX flavour) *)

Module Path.

Definition is_slash (c : ascii) : bool := Ascii.eqb c "/".
Definition is_dot (c : ascii) : bool := Ascii.eqb c ".".

Fixpoint drop_while (p : ascii → bool) (l : list ascii) : list ascii :=
  match l with
  | [] => []
  | c :: rest => if p c then drop_while p rest else l
  end.

Fixpoint take_while (p : ascii → bool) (l : list ascii) : list ascii :=
  match l with
  | [] => []
  | c :: rest => if p c then c :: take_while p rest else []
  end.

(** The last portion of a path, read from its end: trailing separators are
    skipped, then everything up to the next separator is taken. *)
Definition last_portion_reversed (path : string) : list ascii :=
  take_while (λ c, negb (is_slash c))
    (drop_while is_slash (reverse (JS.chars path))).

(** [path.extname(path)]: from the last dot of the last portion to its end;
    empty when there is no dot, when the only dot is the first character of
    the portion, and when the portion is [..]. *)
Definition extname (path : string) : string :=
  let portion := last_portion_reversed path in
  let after := take_while (λ c, negb (is_dot c)) portion in
  match drop_while (λ c, negb (is_dot c)) portion with
  | [] => ""
  | _dot :: before =>
      match before, after with
      | [], _ => ""
      | ["."%char], [] => ""
      | _, _ => JS.text ("."%char :: reverse after)
      end
  end.

(** [path.dirname(path)]. *)
Definition dirname (path : string) : string :=
  match JS.chars path with
  | [] => "."
  | first :: rest =>
      let scanned :=
        drop_while (λ c, negb (is_slash c))
          (drop_while is_slash (reverse rest)) in
      match scanned with
      | [] => if is_slash first then "/" else "."
      | _slash :: kept =>
          if is_slash first && bool_decide (kept = [])
          then "//"
          else JS.text (first :: reverse kept)
      end
  end.

(** Segments of a path between separators. *)
Fixpoint segments (current : list ascii) (l : list ascii) : list string :=
  match l with
  | [] => [JS.text (reverse current)]
  | c :: rest =>
      if is_slash c
      then JS.text (reverse current) :: segments [] rest
      else segments (c :: current) rest
  end.

(** One step of [normalizeString]: empty and [.] segments vanish, [..]
    removes the segment before it when there is one to remove. *)
Definition push_segment (allow_above_root : bool)
    (kept : list string) (segment : string) : list string :=
  if bool_decide (segment = "") || bool_decide (segment = ".") then kept
  else if bool_decide (segment = "..") then
    match kept with
    | previous :: others =>
        if bool_decide (previous = "..")
        then (if allow_above_root then segment :: kept else kept)
        else others
    | [] => if allow_above_root then [segment] else []
    end
  else segment :: kept.

Definition normalize_string (allow_above_root : bool) (path : string) : string :=
  JS.join "/"
    (reverse (foldl (push_segment allow_above_root) [] (segments [] (JS.chars path)))).

(** [path.normalize(path)]. *)
Definition normalize (path : string) : string :=
  match JS.chars path with
  | [] => "."
  | first :: _ =>
      let absolute := is_slash first in
      let trailing :=
        match reverse (JS.chars path) with
        | last :: _ => is_slash last
        | [] => false
        end in
      let body := normalize_string (negb absolute) path in
      if bool_decide (body = "")
      then (if absolute then "/" else if trailing then "./" else ".")
      else
        let body := if trailing then body +:+ "/" else body in
        if absolute then "/" +:+ body else body
  end.

(** [path.join(...parts)]: empty parts are ignored, the rest are glued with
    separators and normalised. *)
Definition join (parts : list string) : string :=
  match filter (λ part, part ≠ "") parts with
  | [] => "."
  | kept => normalize (JS.join "/" kept)
  end.

End Path.

(** ** Errors, values and loaded engines *)

(** What a [throw] carries: [new Error(message)], or the [TypeError] the
    runtime raises when something that is not a function is called. *)
Inductive exn :=
| Error (message : string)
| TypeError (message : string).

(** The data object handed to a render function. *)
Definition Data := gmap string string.

Definition renderer := Data → exn + string.

(** The values template engines hand back: nothing, a string, a function
    (with the text [toString()] gives for it) or a template object that may
    have a [render] method. *)
Inductive value :=
| Undefined
| Str (s : string)
| Function (source : string) (call : renderer)
| Object (render : option renderer).

(** [String(v)] *)
Definition to_string (v : value) : string :=
  match v with
  | Undefined => "undefined"
  | Str s => s
  | Function source _ => source
  | Object _ => "[object Object]"
  end.

(** An element of an array under [join]: [undefined] contributes nothing. *)
Definition join_element (v : value) : string :=
  match v with
  | Undefined => ""
  | _ => to_string v
  end.

(** [v.toString()] *)
Definition toString (v : value) : exn + string :=
  match v with
  | Undefined => inl (TypeError "Cannot read properties of undefined (reading 'toString')")
  | _ => inr (to_string v)
  end.

(** [template.render(data)] *)
Definition call_render (template : value) (data : Data) : exn + string :=
  match template with
  | Object (Some render) => render data
  | Undefined => inl (TypeError "Cannot read properties of undefined (reading 'render')")
  | _ => inl (TypeError "template.render is not a function")
  end.

(** The options object of a native [compile] call; a field left out of the
    object literal is [None]. *)
Record options := {
  opt_asString : option nat;
  opt_client : option bool;
  opt_pretty : option bool;
  opt_compileDebug : option bool
}.

(** A loaded template engine: its [compile(template, options)] entry point
    ([None] when the call passes no options) and its [precompile(template)]
    entry point.  An engine without one of them is one whose entry point
    raises a [TypeError]. *)
Record Compiler := {
  native_compile : string → option options → exn + value;
  native_precompile : string → exn + value
}.

(** Node's module system as the process sees it: which module names
    [require] can load, and where [require.resolve] finds them. *)
Record Node := {
  modules : string → option Compiler;
  resolve : string → option string
}.

(** ** The Temper object *)

(** [function Temper()]: the three caches. *)
Record Temper := {
  cache : gmap string string;
  installed : gmap string string;
  required : gmap string Compiler
}.

(** [new Temper()] *)
Definition new_Temper : Temper :=
  {| cache := ∅; installed := ∅; required := ∅ |}.

(** Calls into the loader ([Temper.prototype.require]) and from there into
    Node's [require], in the order they happen. *)
Inductive event :=
| LoaderCall (engine : string)
| NativeRequire (engine : string).

(** The object, and beside it the log of loader calls made so far; the
    log is how "no load attempt is made" is said. *)
Record World := {
  self : Temper;
  log : list event
}.

Definition fresh : World := {| self := new_Temper; log := [] |}.

(** ** Computations that mutate the object and may throw *)

Definition M (A : Type) : Type := World → (exn + A) * World.

Definition ret {A} (a : A) : M A := λ w, (inr a, w).

Definition throw {A} (e : exn) : M A := λ w, (inl e, w).

Definition bind {A B} (c : M A) (k : A → M B) : M B :=
  λ w, match c w with
       | (inr a, w') => k a w'
       | (inl e, w') => (inl e, w')
       end.

(** [try { c } catch (e) { ... }] with the outcome handed to the code after
    it; what [c] changed before throwing stays changed. *)
Definition attempt {A} (c : M A) : M (exn + A) :=
  λ w, let '(outcome, w') := c w in (inr outcome, w').

Definition lift {A} (outcome : exn + A) : M A := λ w, (outcome, w).

Definition this : M Temper := λ w, (inr (self w), w).

(** The world after more loader events. *)
Definition logged (w : World) (events : list event) : World :=
  {| self := self w; log := log w ++ events |}.

Definition emit (e : event) : M unit := λ w, (inr tt, logged w [e]).

(** The object after [this.required[engine] = compiler]. *)
Definition store (engine : string) (compiler : Compiler) (temper : Temper) : Temper :=
  {| cache := cache temper;
     installed := installed temper;
     required := <[engine := compiler]> (required temper) |}.

(** The object after [this.installed[extname] = engine]. *)
Definition settle (extname engine : string) (temper : Temper) : Temper :=
  {| cache := cache temper;
     installed := <[extname := engine]> (installed temper);
     required := required temper |}.

Definition set_required (engine : string) (compiler : Compiler) : M unit :=
  λ w, (inr tt, {| self := store engine compiler (self w); log := log w |}).

Definition set_installed (extname engine : string) : M unit :=
  λ w, (inr tt, {| self := settle extname engine (self w); log := log w |}).

Notation "'let!' x ':=' c 'in' k" := (bind c (λ x, k))
  (at level 10, x pattern, c at level 100, k at level 200, only parsing).
Notation "'do!' c 'in' k" := (bind c (λ _, k))
  (at level 10, c at level 100, k at level 200, only parsing).

(** [array.filter(callback)] with a callback that has effects. *)
Fixpoint array_filter {A} (callback : A → M bool) (array : list A) : M (list A) :=
  match array with
  | [] => ret []
  | element :: rest =>
      let! keep := callback element in
      let! kept := array_filter callback rest in
      ret (if keep : bool then element :: kept else kept)
  end.

Module Temper_prototype.

(** [Temper.prototype.supported] *)
Definition supported : list (string * list string) :=
  [ (".ejs", ["ejs"]);
    (".jade", ["jade"]);
    (".mustache", ["hogan.js"; "mustache"; "handlebars"]) ].

(** The object literal inherits from [Object.prototype]; these names are
    found there. *)
Definition object_prototype : list string :=
  [ "constructor"; "hasOwnProperty"; "isPrototypeOf"; "propertyIsEnumerable";
    "toLocaleString"; "toString"; "valueOf"; "__proto__";
    "__defineGetter__"; "__defineSetter__"; "__lookupGetter__"; "__lookupSetter__" ].

Fixpoint own_property {A} (object : list (string * A)) (key : string) : option A :=
  match object with
  | [] => None
  | (k, v) :: rest => if decide (k = key) then Some v else own_property rest key
  end.

(** What [this.supported[key]] evaluates to. *)
Inductive lookup_result :=
| Candidates (list : list string)
| Inherited
| Absent.

Definition supported_get (key : string) : lookup_result :=
  match own_property supported key with
  | Some list => Candidates list
  | None => if decide (key ∈ object_prototype) then Inherited else Absent
  end.

(** The three conditions the code raises, by their messages. *)
Definition BackendNotInstalled (engine : string) : exn :=
  Error ("The " +:+ engine +:+ " module isnt installed. Run npm install --save " +:+ engine).

Definition UnknownExtension : exn :=
  Error "Unknown file extensions, cannot detect template engine.".

Definition NoBackendAvailable (list : list string) : exn :=
  Error ("No valid template engine installed, please install " +:+ JS.join "or" list).

(** The object [compile] returns. *)
Record Compilation := {
  library : string;
  client : value;
  server : value
}.

(** The text of the closure [compile] builds around a hogan.js template. *)
Definition render_source : string :=
  "function render(data) {
          return template.render(data);
        }".

Section Methods.

Variable node : Node.

(** Node's [require(engine)]. *)
Definition node_require (engine : string) : M Compiler :=
  do! emit (NativeRequire engine) in
  match modules node engine with
  | Some compiler => ret compiler
  | None => throw (Error ("Cannot find module '" +:+ engine +:+ "'"))
  end.

(** Node's [require.resolve(engine)]. *)
Definition require_resolve (engine : string) : M string :=
  match resolve node engine with
  | Some filename => ret filename
  | None => throw (Error ("Cannot find module '" +:+ engine +:+ "'"))
  end.

(** [Temper.prototype.require]; the final [return this.required[engine]]
    reads back the entry the assignment has just written. *)
Definition require (engine : string) : M Compiler :=
  do! emit (LoaderCall engine) in
  let! temper := this in
  match required temper !! engine with
  | Some compiler => ret compiler
  | None =>
      let! outcome := attempt (node_require engine) in
      match outcome with
      | inl _ => throw (BackendNotInstalled engine)
      | inr compiler =>
          do! set_required engine compiler in
          ret compiler
      end
  end.

(** The callback given to [list.filter] in [discover]. *)
Definition filter_callback (extname engine : string) : M bool :=
  let! outcome := attempt (require engine) in
  match outcome with
  | inl _ => ret false
  | inr compiler =>
      do! set_required engine compiler in
      do! set_installed extname engine in
      ret true
  end.

(** [Temper.prototype.discover] *)
Definition discover (file : string) : M string :=
  let extname := Path.extname file in
  let list := supported_get extname in
  let! temper := this in
  match installed temper !! extname with
  | Some engine => ret engine
  | None =>
      match list with
      | Absent => throw UnknownExtension
      | Inherited => throw (TypeError "list.filter is not a function")
      | Candidates list =>
          let! found := array_filter (filter_callback extname) list in
          match found with
          | first :: _ => ret first
          | [] => throw (NoBackendAvailable list)
          end
      end
  end.

(** The member [this.read] evaluates to on the object [compile] runs on,
    [None] when the object has no such member. *)
Variable read_member : option (string → exn + string).

(** [this.read(file)] *)
Definition this_read (file : string) : M string :=
  match read_member with
  | Some read => lift (read file)
  | None => throw (TypeError "this.read is not a function")
  end.

(** The body of the [switch]: what [library], [client] and [server] hold
    when it is left; a variable never assigned is [None] or [Undefined]. *)
Definition dispatch (compiler : Compiler) (template engine name : string)
    : M (option string * value * value) :=
  if decide (engine = "hogan.js") then
    let! template_object := lift (native_compile compiler template None) in
    let server := Function render_source (call_render template_object) in
    let! precompiled :=
      lift (native_compile compiler template
              (Some {| opt_asString := Some 1; opt_client := None;
                       opt_pretty := None; opt_compileDebug := None |})) in
    let client :=
      Str (JS.join ""
             [ "(function hulk() {";
               "var template = new Hogan.Template(";
               join_element precompiled;
               ");";
               "return function render(data) { return template.render(data); };" ]) in
    let! filename := require_resolve engine in
    let directory := Path.dirname filename in
    ret (Some (Path.join [directory; "template.js"]), client, server)
  else if decide (engine = "handlebars") then
    let! server := lift (native_compile compiler template None) in
    let! client := lift (native_precompile compiler template) in
    let! filename := require_resolve engine in
    let directory := Path.dirname filename in
    ret (Some (Path.join [directory; ".."; "dist"; "handlebars.runtime.js"]),
         client, server)
  else if decide (engine = "ejs") then
    let! server := lift (native_compile compiler template None) in
    let! compiled :=
      lift (native_compile compiler template
              (Some {| opt_asString := None; opt_client := Some true;
                       opt_pretty := None; opt_compileDebug := Some false |})) in
    let! source := lift (toString compiled) in
    ret (None,
         Str (JS.replace source "function anonymous" ("function " +:+ name)),
         server)
  else if decide (engine = "jade") then
    let! server := lift (native_compile compiler template None) in
    let! compiled :=
      lift (native_compile compiler template
              (Some {| opt_asString := None; opt_client := Some true;
                       opt_pretty := Some true; opt_compileDebug := Some false |})) in
    let! source := lift (toString compiled) in
    let client :=
      Str (JS.replace source "function anonymous" ("function " +:+ name)) in
    let! filename := require_resolve engine in
    let directory := Path.dirname filename in
    ret (Some (Path.join [directory; "runtime.js"]), client, server)
  else ret (None, Undefined, Undefined).

(** [library ? this.read(library) : ''] *)
Definition front_end_library (library : option string) : M string :=
  match library with
  | None => ret ""
  | Some file => if decide (file = "") then ret "" else this_read file
  end.

(** [Temper.prototype.compile], on an object whose [read] member is
    [read_member]. *)
Definition compile_with (template engine name : string) : M Compilation :=
  let! compiler := require engine in
  let! (library, client, server) := dispatch compiler template engine name in
  let! text := front_end_library library in
  ret {| library := text; client := client; server := server |}.

End Methods.

(** [Temper.prototype.compile].  [function Temper()] sets [cache],
    [installed] and [required]; the prototype holds [supported], [require],
    [discover] and [compile].  Nothing gives the object a [read] member. *)
Definition compile (node : Node) : string → string → string → M Compilation :=
  compile_with node None.

End Temper_prototype.

(** ** Vocabulary of the statements *)

Import Temper_prototype.

(** What the loader hands out for [engine]: the cached handle when there is
    one, otherwise whatever Node's [require] can load. *)
Definition handle (node : Node) (temper : Temper) (engine : string) : option Compiler :=
  match required temper !! engine with
  | Some compiler => Some compiler
  | None => modules node engine
  end.

Definition loads (node : Node) (temper : Temper) (engine : string) : Prop :=
  is_Some (handle node temper engine).

#[global] Instance loads_dec node temper engine : Decision (loads node temper engine) :=
  decide (is_Some (handle node temper engine)).

(** The object after the filter callback of [discover] has run on one
    candidate: a candidate that loads is stored and becomes the resolution of
    the extension, one that does not leaves the object alone. *)
Definition probe (node : Node) (extname : string) (temper : Temper) (engine : string) : Temper :=
  match handle node temper engine with
  | Some compiler => settle extname engine (store engine compiler temper)
  | None => temper
  end.

(** The engines the loader was asked for, oldest first. *)
Definition loader_calls (events : list event) : list string :=
  omap (λ e, match e with LoaderCall engine => Some engine | NativeRequire _ => None end) events.

(** The engines Node's [require] was asked for, oldest first. *)
Definition native_requires (events : list event) : list string :=
  omap (λ e, match e with NativeRequire engine => Some engine | LoaderCall _ => None end) events.

(** The caches agree with each other and with the registry: an extension is
    resolved only to one of its candidates, and only to an engine whose
    handle is in the load cache. *)
Definition consistent (temper : Temper) : Prop :=
  ∀ extname engine,
    installed temper !! extname = Some engine →
    is_Some (required temper !! engine) ∧
    ∃ list, own_property supported extname = Some list ∧ engine ∈ list.

(** The load cache agrees with Node: a cached handle is the module Node's
    [require] gives for that name. *)
Definition coherent (node : Node) (temper : Temper) : Prop :=
  ∀ engine compiler,
    required temper !! engine = Some compiler →
    modules node engine = Some compiler.

(** [f(data)]: calling a value as a function. *)
Definition invoke (f : value) (data : Data) : exn + string :=
  match f with
  | Function _ call => call data
  | _ => inl (TypeError "server is not a function")
  end.

(** How each engine renders what its own [compile(template)] returned:
    hogan.js through the template object's [render] method, the others by
    calling the compiled function. *)
Definition render_natively (engine : string) (compiled : value) (data : Data) : exn + string :=
  if decide (engine = "hogan.js") then call_render compiled data
  else invoke compiled data.

(** The worlds a program reaches from [new Temper()] by calling the three
    methods, whatever they return. *)
Inductive reachable (node : Node) : World → Prop :=
| reach_new : reachable node fresh
| reach_require engine w :
    reachable node w → reachable node (require node engine w).2
| reach_discover file w :
    reachable node w → reachable node (discover node file w).2
| reach_compile template engine name w :
    reachable node w → reachable node (compile node template engine name w).2.

(** A logical name without a dollar sign. *)
Definition no_dollar (name : string) : Prop := "$"%char ∉ JS.chars name.

(** The options of the client-side compile of an ejs template. *)
Definition ejs_client_options : options :=
  {| opt_asString := None; opt_client := Some true;
     opt_pretty := None; opt_compileDebug := Some false |}.

(** The options of the client-side compile of a jade template. *)
Definition jade_client_options : options :=
  {| opt_asString := None; opt_client := Some true;
     opt_pretty := Some true; opt_compileDebug := Some false |}.

(** The claim's table of companion runtime libraries: where each engine's
    library file lies, relative to the directory of the engine's main file. *)
Definition runtime_library (engine : string) : option (list string) :=
  if decide (engine = "hogan.js") then Some ["template.js"]
  else if decide (engine = "handlebars") then Some [".."; "dist"; "handlebars.runtime.js"]
  else if decide (engine = "jade") then Some ["runtime.js"]
  else None.

(** The text the hogan.js case of [compile] puts around the precompiled
    template. *)
Definition hulk_wrapper (precompiled : string) : string :=
  "(function hulk() {var template = new Hogan.Template("
  +:+ precompiled
  +:+ ");return function render(data) { return template.render(data); };".

(** The engines [compile] has a [case] for. *)
Definition dispatch_set : list string := ["hogan.js"; "handlebars"; "ejs"; "jade"].

(** Bracket matching: the brackets still open after reading a text, innermost
    first, or [None] when a closing bracket has no partner. *)
Definition closer (c : ascii) : option ascii :=
  if Ascii.eqb c "(" then Some ")"%char
  else if Ascii.eqb c "[" then Some "]"%char
  else if Ascii.eqb c "{" then Some "}"%char
  else None.

Definition is_closer (c : ascii) : bool :=
  Ascii.eqb c ")" || Ascii.eqb c "]" || Ascii.eqb c "}".

Fixpoint open_brackets (pending : list ascii) (s : string) : option (list ascii) :=
  match s with
  | EmptyString => Some pending
  | String c rest =>
      match closer c with
      | Some expected => open_brackets (expected :: pending) rest
      | None =>
          if is_closer c then
            match pending with
            | expected :: others =>
                if Ascii.eqb c expected then open_brackets others rest else None
            | [] => None
            end
          else open_brackets pending rest
      end
  end.

Definition balanced (s : string) : Prop := open_brackets [] s = Some [].

(** ** Engines and installations to run the code on *)

Module Fixtures.

(** An engine in the style of ejs: [compile] gives a function whose text,
    in client mode, is an anonymous function declaration. *)
Definition ejs : Compiler := {|
  native_compile template opts :=
    match opts with
    | Some {| opt_client := Some true; opt_compileDebug := Some false |} =>
        inr (Function ("function anonymous(locals) { return '" +:+ template +:+ "'; }")
                      (λ _, inr template))
    | _ => inr (Function ("function (locals) { return '" +:+ template +:+ "'; }")
                         (λ _, inr template))
    end;
  native_precompile _ := inl (TypeError "compiler.precompile is not a function")
|}.

(** An engine in the style of hogan.js: [compile] gives a template object
    with a [render] method, or its source text when [asString] is set. *)
Definition hogan : Compiler := {|
  native_compile template opts :=
    match opts with
    | Some {| opt_asString := Some _ |} =>
        inr (Str ("{code: function (c,p,i) { return '" +:+ template +:+ "'; }}"))
    | _ => inr (Object (Some (λ _, inr template)))
    end;
  native_precompile _ := inl (TypeError "compiler.precompile is not a function")
|}.

(** An engine in the style of handlebars. *)
Definition handlebars : Compiler := {|
  native_compile template _ := inr (Function "function ret(context) {}" (λ _, inr template));
  native_precompile template := inr (Str ("function (Handlebars) { return '" +:+ template +:+ "'; }"))
|}.

(** A module that loads but offers neither entry point. *)
Definition mustache : Compiler := {|
  native_compile _ _ := inl (TypeError "compiler.compile is not a function");
  native_precompile _ := inl (TypeError "compiler.precompile is not a function")
|}.

Definition install (packages : list (string * Compiler)) : Node := {|
  modules name := own_property packages name;
  resolve name :=
    match own_property packages name with
    | Some _ => Some ("/app/node_modules/" +:+ name +:+ "/lib/" +:+ name +:+ ".js")
    | None => None
    end
|}.

Definition nothing_installed : Node := install [].
Definition only_ejs : Node := install [("ejs", ejs)].
Definition only_mustache : Node := install [("mustache", mustache)].
Definition only_hogan : Node := install [("hogan.js", hogan)].
Definition every_engine : Node :=
  install [("hogan.js", hogan); ("handlebars", handlebars); ("ejs", ejs); ("jade", ejs)].
Definition hogan_and_handlebars : Node :=
  install [("hogan.js", hogan); ("handlebars", handlebars)].

End Fixtures.

(** * Properties *)

(** ** Node's path and string functions on the inputs used below *)

Example extname_template : Path.extname "views/page.mustache" = ".mustache".
Proof. reflexivity. Qed.

Example extname_hidden : Path.extname ".ejs" = "".
Proof. reflexivity. Qed.

Example extname_trailing : Path.extname "a/b.c/index.ejs//" = ".ejs".
Proof. reflexivity. Qed.

Example extname_dots : Path.extname ".." = "" ∧ Path.extname "..." = "." ∧ Path.extname "index." = ".".
Proof. repeat split; reflexivity. Qed.

Example dirname_module :
  Path.dirname "/app/node_modules/hogan.js/lib/hogan.js" = "/app/node_modules/hogan.js/lib".
Proof. reflexivity. Qed.

Example join_runtime :
  Path.join ["/app/node_modules/handlebars/lib"; ".."; "dist"; "handlebars.runtime.js"]
  = "/app/node_modules/handlebars/dist/handlebars.runtime.js".
Proof. vm_compute. reflexivity. Qed.

Example replace_first :
  JS.replace "function anonymous(locals) { anonymous }" "function anonymous" "function greet"
  = "function greet(locals) { anonymous }".
Proof. reflexivity. Qed.

Example replace_dollar :
  JS.replace "function anonymous(locals) {}" "function anonymous" "function $$"
  = "function $(locals) {}".
Proof. reflexivity. Qed.

(** ** The loader *)

Lemma logged_logged w a b : logged (logged w a) b = logged w (a ++ b).
Proof. unfold logged; simpl. by rewrite <- app_assoc. Qed.

Lemma require_cached node engine w compiler :
  required (self w) !! engine = Some compiler →
  require node engine w = (inr compiler, logged w [LoaderCall engine]).
Proof.
  intros Hcached. unfold require, bind, emit, this; simpl.
  by rewrite Hcached.
Qed.

Lemma require_missing node engine w :
  required (self w) !! engine = None →
  modules node engine = None →
  require node engine w
  = (inl (BackendNotInstalled engine),
     logged w [LoaderCall engine; NativeRequire engine]).
Proof.
  intros Hcache Hnode.
  unfold require, bind, emit, this, attempt, node_require, bind, emit; simpl.
  rewrite Hcache, Hnode; simpl. unfold throw. by rewrite logged_logged.
Qed.

Lemma require_fresh node engine w compiler :
  required (self w) !! engine = None →
  modules node engine = Some compiler →
  require node engine w
  = (inr compiler,
     {| self := store engine compiler (self w);
        log := log w ++ [LoaderCall engine; NativeRequire engine] |}).
Proof.
  intros Hcache Hnode.
  unfold require, bind, emit, this, attempt, node_require, bind, emit; simpl.
  rewrite Hcache, Hnode; simpl. unfold set_required, ret; simpl.
  by rewrite <- app_assoc.
Qed.

Lemma includes_middle (before needle after : string) :
  JS.includes (before +:+ needle +:+ after) needle.
Proof. by exists before, after. Qed.

Lemma append_cons (c : ascii) (s t : string) :
  String c s +:+ t = String c (s +:+ t).
Proof. reflexivity. Qed.

Lemma append_nil_l (s : string) : "" +:+ s = s.
Proof. reflexivity. Qed.

Lemma append_nil_r (s : string) : s +:+ "" = s.
Proof. induction s as [|c s IH]; [done | by rewrite append_cons, IH]. Qed.

Lemma append_assoc (a b c : string) : (a +:+ b) +:+ c = a +:+ b +:+ c.
Proof. induction a as [|x a IH]; [done | by rewrite !append_cons, IH]. Qed.

Lemma native_requires_app a b :
  native_requires (a ++ b) = native_requires a ++ native_requires b.
Proof. apply omap_app. Qed.

Lemma loader_calls_app a b :
  loader_calls (a ++ b) = loader_calls a ++ loader_calls b.
Proof. apply omap_app. Qed.

(** C4. The loader [Temper.prototype.require]: a cached handle is returned
    as it is, without asking Node; when nothing is cached and Node cannot
    load the module the call throws the "isnt installed" error, whose message
    names the engine and tells how to install it, the caches stay as they
    were, and asking again asks Node again and fails again; when Node loads
    the module the handle is stored in the load cache and returned. *)
Theorem require_load node engine w :
  (∀ compiler,
     required (self w) !! engine = Some compiler →
     require node engine w = (inr compiler, logged w [LoaderCall engine]))
  ∧ (required (self w) !! engine = None →
     modules node engine = None →
     ∃ w' message,
       require node engine w = (inl (Error message), w')
       ∧ Error message = BackendNotInstalled engine
       ∧ JS.includes message engine
       ∧ JS.includes message ("npm install --save " +:+ engine)
       ∧ self w' = self w
       ∧ (require node engine w').1 = inl (BackendNotInstalled engine)
       ∧ native_requires (log (require node engine w').2)
         = native_requires (log w) ++ [engine; engine])
  ∧ (∀ compiler,
     required (self w) !! engine = None →
     modules node engine = Some compiler →
     ∃ w',
       require node engine w = (inr compiler, w')
       ∧ required (self w') = <[engine := compiler]> (required (self w))
       ∧ required (self w') !! engine = Some compiler
       ∧ installed (self w') = installed (self w)).
Proof.
  split; [| split].
  - intros compiler Hcached. by apply require_cached.
  - intros Hcache Hnode.
    do 2 eexists. split; [by apply require_missing |].
    split; [done |]. split; [apply includes_middle |].
    split.
    { exists ("The " +:+ engine +:+ " module isnt installed. Run "), "".
      by rewrite append_nil_r, !append_assoc. }
    split; [done |].
    rewrite require_missing by done. simpl.
    split; [done |].
    rewrite <- app_assoc, native_requires_app. done.
  - intros compiler Hcache Hnode.
    eexists. split; [by apply require_fresh |]. simpl.
    split; [done |]. split; [apply lookup_insert_eq | done].
Qed.

Lemma require_load_witness :
  require Fixtures.only_ejs "ejs"
    {| self := store "ejs" Fixtures.ejs new_Temper; log := [] |}
  = (inr Fixtures.ejs, {| self := store "ejs" Fixtures.ejs new_Temper; log := [LoaderCall "ejs"] |})
  ∧ (require Fixtures.nothing_installed "ejs" fresh).1
    = inl (Error "The ejs module isnt installed. Run npm install --save ejs")
  ∧ (require Fixtures.only_ejs "ejs" fresh).1 = inr Fixtures.ejs.
Proof.
  split; [| split].
  - apply (proj1 (require_load Fixtures.only_ejs "ejs"
                    {| self := store "ejs" Fixtures.ejs new_Temper; log := [] |})).
    reflexivity.
  - destruct (proj1 (proj2 (require_load Fixtures.nothing_installed "ejs" fresh)))
      as (w' & message & Hrun & Hmessage & _); [reflexivity | reflexivity |].
    rewrite Hrun. simpl. f_equal. exact Hmessage.
  - destruct (proj2 (proj2 (require_load Fixtures.only_ejs "ejs" fresh)) Fixtures.ejs)
      as (w' & Hrun & _); [reflexivity | reflexivity |].
    rewrite Hrun. reflexivity.
Defined.

(** ** Probing the candidates *)

Lemma store_cached engine compiler temper :
  required temper !! engine = Some compiler →
  store engine compiler temper = temper.
Proof.
  intros Hcached. destruct temper as [c i r]; unfold store; simpl in *.
  by rewrite insert_id.
Qed.

Lemma store_store engine compiler temper :
  store engine compiler (store engine compiler temper) = store engine compiler temper.
Proof. unfold store; simpl. by rewrite insert_insert_eq. Qed.

(** What [require] does, in terms of the handle the loader has for the
    engine. *)
Lemma require_handle node engine w :
  ∃ events,
    loader_calls events = [engine] ∧
    require node engine w
    = match handle node (self w) engine with
      | Some compiler =>
          (inr compiler,
           {| self := store engine compiler (self w); log := log w ++ events |})
      | None => (inl (BackendNotInstalled engine), logged w events)
      end.
Proof.
  unfold handle.
  destruct (required (self w) !! engine) as [compiler|] eqn:Hcache.
  - exists [LoaderCall engine]. split; [done |].
    rewrite (require_cached _ _ _ compiler) by done.
    by rewrite store_cached.
  - exists [LoaderCall engine; NativeRequire engine]. split; [done |].
    destruct (modules node engine) as [compiler|] eqn:Hnode.
    + by apply require_fresh.
    + by apply require_missing.
Qed.

Lemma filter_callback_run node extname engine w :
  ∃ events,
    loader_calls events = [engine] ∧
    filter_callback node extname engine w
    = (inr (bool_decide (loads node (self w) engine)),
       {| self := probe node extname (self w) engine; log := log w ++ events |}).
Proof.
  destruct (require_handle node engine w) as (events & Hcalls & Hrun).
  exists events. split; [done |].
  unfold filter_callback, bind, attempt. rewrite Hrun. clear Hrun.
  unfold probe.
  destruct (handle node (self w) engine) as [compiler|] eqn:Hhandle; simpl.
  - rewrite bool_decide_eq_true_2 by (unfold loads; rewrite Hhandle; eauto).
    unfold set_required, set_installed, ret; simpl.
    by rewrite store_store.
  - rewrite bool_decide_eq_false_2; [done |].
    unfold loads. rewrite Hhandle. by intros [? ?].
Qed.

Lemma handle_probe node extname temper engine other :
  handle node (probe node extname temper engine) other = handle node temper other.
Proof.
  unfold probe.
  destruct (handle node temper engine) as [compiler|] eqn:Hengine; [| done].
  unfold handle in *; simpl.
  destruct (decide (engine = other)) as [->|Hne].
  - rewrite lookup_insert_eq.
    destruct (required temper !! other); congruence.
  - by rewrite lookup_insert_ne.
Qed.

Lemma filter_loads_probe node extname temper engine (candidates : list string) :
  filter (loads node (probe node extname temper engine)) candidates
  = filter (loads node temper) candidates.
Proof.
  apply list_filter_iff. intros other. unfold loads.
  by rewrite handle_probe.
Qed.

(** [list.filter(callback)] in [discover]: the callback never throws, every
    candidate is handed to the loader, and the candidates kept are those
    that load. *)
Lemma array_filter_run node extname (candidates : list string) w :
  ∃ events,
    loader_calls events = candidates ∧
    array_filter (filter_callback node extname) candidates w
    = (inr (filter (loads node (self w)) candidates),
       {| self := foldl (probe node extname) (self w) candidates;
          log := log w ++ events |}).
Proof.
  revert w. induction candidates as [|engine rest IH]; intros w.
  - exists []. split; [done |]. simpl. unfold ret. rewrite app_nil_r. by destruct w.
  - destruct (filter_callback_run node extname engine w) as (first & Hfirst & Hrun).
    destruct (IH {| self := probe node extname (self w) engine; log := log w ++ first |})
      as (others & Hothers & Hrest).
    exists (first ++ others). split.
    { rewrite loader_calls_app, Hfirst, Hothers. done. }
    simpl. unfold bind. rewrite Hrun, Hrest. simpl.
    rewrite filter_loads_probe, <- app_assoc. unfold ret.
    rewrite filter_cons. by case_bool_decide; case_decide.
Qed.

Lemma foldl_probe_unloadable node extname temper (candidates : list string) :
  filter (loads node temper) candidates = [] →
  foldl (probe node extname) temper candidates = temper.
Proof.
  induction candidates as [|engine rest IH]; [done |].
  rewrite filter_cons. case_decide as Hloads; [done |].
  intros Hrest. simpl.
  assert (probe node extname temper engine = temper) as ->; [| by apply IH].
  unfold probe. unfold loads in Hloads.
  destruct (handle node temper engine); [| done].
  exfalso. apply Hloads. eauto.
Qed.

(** After the callback has run on every candidate, the extension is resolved
    to the last candidate that loads. *)
Lemma foldl_probe_installed node extname temper (candidates : list string) :
  installed (foldl (probe node extname) temper candidates) !! extname
  = match last (filter (loads node temper) candidates) with
    | Some engine => Some engine
    | None => installed temper !! extname
    end.
Proof.
  revert temper. induction candidates as [|engine rest IH]; intros temper; [done |].
  simpl. rewrite IH, filter_loads_probe, filter_cons.
  case_decide as Hloads.
  - rewrite last_cons.
    destruct (last (filter (loads node temper) rest)); [done |].
    unfold probe. unfold loads in Hloads. destruct Hloads as [compiler ->].
    simpl. apply lookup_insert_eq.
  - assert (probe node extname temper engine = temper) as ->; [| done].
    unfold probe. unfold loads in Hloads.
    destruct (handle node temper engine); [| done].
    exfalso. apply Hloads. eauto.
Qed.

(** ** Extensions and the registry *)

Lemma extname_shape file :
  Path.extname file = "" ∨ ∃ rest, Path.extname file = String "." rest.
Proof.
  unfold Path.extname.
  destruct (Path.drop_while _ _) as [|dot before]; [by left |].
  destruct before as [|c before]; [by left |].
  destruct (Path.take_while _ _) as [|a after].
  - destruct c as [[] [] [] [] [] [] [] []], before; simpl; eauto.
  - destruct c as [[] [] [] [] [] [] [] []], before; simpl; eauto.
Qed.

Lemma extname_not_inherited file : Path.extname file ∉ object_prototype.
Proof.
  intros Hin.
  destruct (extname_shape file) as [Heq | [rest Heq]]; rewrite Heq in Hin;
    unfold object_prototype in Hin;
    repeat (apply elem_of_cons in Hin as [Hin | Hin]; [discriminate |]);
    by apply elem_of_nil in Hin.
Qed.

(** Looking an extension up in [supported] never finds an inherited member:
    it finds the candidates of a registered extension or nothing. *)
Lemma supported_get_extname file :
  supported_get (Path.extname file)
  = match own_property supported (Path.extname file) with
    | Some candidates => Candidates candidates
    | None => Absent
    end.
Proof.
  unfold supported_get.
  destruct (own_property supported (Path.extname file)); [done |].
  case_decide as Hin; [| done].
  by apply extname_not_inherited in Hin.
Qed.

(** ** The three ways through [discover] *)

Lemma discover_cached node file w engine :
  installed (self w) !! Path.extname file = Some engine →
  discover node file w = (inr engine, w).
Proof.
  intros Hcached. unfold discover, bind, this; simpl. by rewrite Hcached.
Qed.

Lemma discover_unknown node file w :
  installed (self w) !! Path.extname file = None →
  own_property supported (Path.extname file) = None →
  discover node file w = (inl UnknownExtension, w).
Proof.
  intros Hcache Habsent. unfold discover, bind, this; simpl.
  by rewrite Hcache, supported_get_extname, Habsent.
Qed.

Lemma discover_probing node file w (candidates : list string) :
  installed (self w) !! Path.extname file = None →
  own_property supported (Path.extname file) = Some candidates →
  ∃ events,
    loader_calls events = candidates ∧
    discover node file w
    = (match filter (loads node (self w)) candidates with
       | first :: _ => inr first
       | [] => inl (NoBackendAvailable candidates)
       end,
       {| self := foldl (probe node (Path.extname file)) (self w) candidates;
          log := log w ++ events |}).
Proof.
  intros Hcache Hregistered.
  destruct (array_filter_run node (Path.extname file) candidates w)
    as (events & Hcalls & Hrun).
  exists events. split; [done |].
  unfold discover, bind, this; simpl.
  rewrite Hcache, supported_get_extname, Hregistered, Hrun.
  by destruct (filter _ candidates).
Qed.




(** Where the code parts from the first-success rule: every candidate of
    the extension is handed to the loader, whether or not an earlier one has
    loaded. *)
Lemma discover_probes_every_candidate node file w (candidates : list string) :
  installed (self w) !! Path.extname file = None →
  own_property supported (Path.extname file) = Some candidates →
  loader_calls (log (discover node file w).2) = loader_calls (log w) ++ candidates.
Proof.
  intros Hcache Hregistered.
  destruct (discover_probing node file w candidates Hcache Hregistered)
    as (events & Hcalls & ->). simpl.
  by rewrite loader_calls_app, Hcalls.
Qed.

(** ... and the resolution cache ends up with the last candidate that
    loads. *)
Lemma discover_resolves_to_last node file w (candidates : list string) :
  installed (self w) !! Path.extname file = None →
  own_property supported (Path.extname file) = Some candidates →
  installed (self (discover node file w).2) !! Path.extname file
  = last (filter (loads node (self w)) candidates).
Proof.
  intros Hcache Hregistered.
  destruct (discover_probing node file w candidates Hcache Hregistered)
    as (events & _ & ->). simpl.
  rewrite foldl_probe_installed, Hcache.
  by destruct (last _).
Qed.

(** C1. Code against claim, on an installation with hogan.js and
    handlebars but not mustache: [discover] on a [.mustache] file returns
    hogan.js, the first candidate that loads, yet the loader is still called
    on mustache and on handlebars after hogan.js has loaded. *)
Theorem discover_probes_after_first_success :
  (discover Fixtures.hogan_and_handlebars "page.mustache" fresh).1 = inr "hogan.js"
  ∧ log (discover Fixtures.hogan_and_handlebars "page.mustache" fresh).2
    = [ LoaderCall "hogan.js"; NativeRequire "hogan.js";
        LoaderCall "mustache"; NativeRequire "mustache";
        LoaderCall "handlebars"; NativeRequire "handlebars" ].
Proof. split; vm_compute; reflexivity. Qed.

(** C2. Code against claim, on the same installation: the first call
    returns hogan.js but leaves handlebars in the resolution cache, so the
    second call, which does not touch the loader, returns handlebars. *)
Theorem discover_twice_differs :
  let first := discover Fixtures.hogan_and_handlebars "page.mustache" fresh in
  let second := discover Fixtures.hogan_and_handlebars "page.mustache" first.2 in
  first.1 = inr "hogan.js"
  ∧ installed (self first.2) !! ".mustache" = Some "handlebars"
  ∧ second.1 = inr "handlebars"
  ∧ log second.2 = log first.2.
Proof. repeat split; vm_compute; reflexivity. Qed.

(** ** The caches stay consistent *)

Lemma consistent_new : consistent new_Temper.
Proof. intros extname engine Hin. simpl in Hin. by rewrite lookup_empty in Hin. Qed.

Lemma consistent_store engine compiler temper :
  consistent temper → consistent (store engine compiler temper).
Proof.
  intros Hc extname resolved Hin. simpl in *.
  destruct (Hc extname resolved Hin) as [Hloaded Hcandidate].
  split; [| done].
  destruct (decide (engine = resolved)) as [->|Hne].
  - rewrite lookup_insert_eq. eauto.
  - by rewrite lookup_insert_ne.
Qed.

Lemma consistent_probe node extname (candidates : list string) temper engine :
  own_property supported extname = Some candidates →
  engine ∈ candidates →
  consistent temper →
  consistent (probe node extname temper engine).
Proof.
  intros Hregistered Hin Hc. unfold probe.
  destruct (handle node temper engine) as [compiler|]; [| done].
  intros key resolved Hresolved. simpl in *.
  destruct (decide (extname = key)) as [<-|Hne].
  - rewrite lookup_insert_eq in Hresolved. injection Hresolved as <-.
    rewrite lookup_insert_eq. split; [eauto |]. by exists candidates.
  - rewrite lookup_insert_ne in Hresolved by done.
    by apply (consistent_store engine compiler temper Hc key resolved).
Qed.

Lemma consistent_foldl_probe node extname (candidates probed : list string) temper :
  own_property supported extname = Some candidates →
  probed ⊆ candidates →
  consistent temper →
  consistent (foldl (probe node extname) temper probed).
Proof.
  intros Hregistered. revert temper.
  induction probed as [|engine rest IH]; intros temper Hsub Hc; [done |].
  simpl. apply IH.
  - intros x Hx. apply Hsub. by right.
  - apply (consistent_probe node extname candidates); [done | | done].
    apply Hsub. by left.
Qed.

Lemma require_consistent node engine w :
  consistent (self w) → consistent (self (require node engine w).2).
Proof.
  intros Hc. destruct (require_handle node engine w) as (events & _ & ->).
  destruct (handle node (self w) engine); simpl; [| done].
  by apply consistent_store.
Qed.

Lemma discover_consistent node file w :
  consistent (self w) → consistent (self (discover node file w).2).
Proof.
  intros Hc.
  destruct (installed (self w) !! Path.extname file) as [engine|] eqn:Hcache.
  { by rewrite (discover_cached _ _ _ engine). }
  destruct (own_property supported (Path.extname file)) as [candidates|] eqn:Hregistered.
  - destruct (discover_probing node file w candidates Hcache Hregistered)
      as (events & _ & ->). simpl.
    by apply (consistent_foldl_probe _ _ candidates).
  - by rewrite discover_unknown.
Qed.

(** The [switch] and the read of the front-end library leave the object
    and the loader log alone. *)
Lemma dispatch_world node compiler template engine name w :
  (dispatch node compiler template engine name w).2 = w.
Proof.
  unfold dispatch, bind, lift, require_resolve, ret, throw.
  repeat case_decide;
    repeat (match goal with
            | |- context [native_compile ?c ?t ?o] => destruct (native_compile c t o)
            | |- context [native_precompile ?c ?t] => destruct (native_precompile c t)
            | |- context [toString ?v] => destruct (toString v)
            | |- context [resolve ?n ?e] => destruct (resolve n e)
            end; simpl);
    done.
Qed.

Lemma front_end_library_world read_member library w :
  (front_end_library read_member library w).2 = w.
Proof.
  unfold front_end_library, this_read, lift, ret, throw.
  destruct library as [file|]; [| done].
  case_decide; [done |]. by destruct read_member.
Qed.

Lemma compile_with_self node read_member template engine name w :
  self (compile_with node read_member template engine name w).2
  = self (require node engine w).2.
Proof.
  unfold compile_with, bind.
  destruct (require node engine w) as [[e|compiler] w1]; [done |]. simpl.
  pose proof (dispatch_world node compiler template engine name w1) as Hd.
  destruct (dispatch node compiler template engine name w1)
    as [[e|[[library client] server]] w2]; simpl in *; subst w2; [done |].
  pose proof (front_end_library_world read_member library w1) as Hf.
  destruct (front_end_library read_member library w1) as [[e|text] w3];
    simpl in *; by subst w3.
Qed.

Lemma reachable_consistent node w : reachable node w → consistent (self w).
Proof.
  induction 1 as [|engine w _ IH|file w _ IH|template engine name w _ IH].
  - apply consistent_new.
  - by apply require_consistent.
  - by apply discover_consistent.
  - unfold compile. rewrite compile_with_self. by apply require_consistent.
Qed.

(** An extension the resolution cache knows has a candidate that loads. *)
Lemma resolved_loads node temper extname engine :
  consistent temper →
  installed temper !! extname = Some engine →
  ∃ candidates,
    own_property supported extname = Some candidates
    ∧ engine ∈ candidates ∧ loads node temper engine.
Proof.
  intros Hc Hin. destruct (Hc extname engine Hin) as ([compiler Hloaded] & candidates & Hreg & Hcand).
  exists candidates. split; [done |]. split; [done |].
  unfold loads, handle. rewrite Hloaded. eauto.
Qed.

(** [loads] is what the loader does: the engine loads exactly when
    [require] returns a handle for it. *)
Lemma loads_require node engine w :
  loads node (self w) engine ↔ ∃ compiler, (require node engine w).1 = inr compiler.
Proof.
  destruct (require_handle node engine w) as (events & _ & ->).
  unfold loads. destruct (handle node (self w) engine) as [compiler|]; simpl.
  - split; eauto.
  - split; [by intros [? ?] | by intros [? ?]].
Qed.

(** ** Failing discovery *)

Lemma join_cons separator (first second : string) (rest : list string) :
  JS.join separator (first :: second :: rest)
  = first +:+ separator +:+ JS.join separator (second :: rest).
Proof. reflexivity. Qed.

Lemma join_includes separator (parts : list string) part :
  part ∈ parts → JS.includes (JS.join separator parts) part.
Proof.
  induction parts as [|first rest IH]; [by intros ?%elem_of_nil |].
  destruct rest as [|second rest].
  - intros ->%list_elem_of_singleton. exists "", "". by rewrite append_nil_r.
  - rewrite join_cons. intros [->|Hin]%elem_of_cons.
    + exists "", (separator +:+ JS.join separator (second :: rest)). done.
    + destruct (IH Hin) as (before & after & ->).
      exists (first +:+ separator +:+ before), after.
      by rewrite !append_assoc.
Qed.

Lemma includes_after (prefix s needle : string) :
  JS.includes s needle → JS.includes (prefix +:+ s) needle.
Proof.
  intros (before & after & ->). exists (prefix +:+ before), after.
  by rewrite append_assoc.
Qed.

Lemma unresolved_when_nothing_loads node temper extname (candidates : list string) :
  consistent temper →
  own_property supported extname = Some candidates →
  (∀ engine, engine ∈ candidates → ¬ loads node temper engine) →
  installed temper !! extname = None.
Proof.
  intros Hc Hregistered Hnone.
  destruct (installed temper !! extname) as [engine|] eqn:Hcache; [| done].
  destruct (resolved_loads node temper extname engine Hc Hcache)
    as (candidates' & Hregistered' & Hin & Hloads).
  rewrite Hregistered in Hregistered'. injection Hregistered' as <-.
  by destruct (Hnone engine Hin).
Qed.

(** C5. For a file whose extension is in the registry, on an object with
    consistent caches, when no candidate of the extension loads [discover]
    throws the "No valid template engine installed" error; its message is
    the fixed text followed by the registry's candidates for that extension
    joined by "or", so every candidate is named in it; the object is left as
    it was. *)
Theorem discover_no_backend node file w (candidates : list string) :
  consistent (self w) →
  own_property supported (Path.extname file) = Some candidates →
  (∀ engine, engine ∈ candidates → ¬ loads node (self w) engine) →
  ∃ w' message,
    discover node file w = (inl (Error message), w')
    ∧ Error message = NoBackendAvailable candidates
    ∧ message = "No valid template engine installed, please install "
                +:+ JS.join "or" candidates
    ∧ (∀ engine, engine ∈ candidates → JS.includes message engine)
    ∧ self w' = self w.
Proof.
  intros Hc Hregistered Hnone.
  pose proof (unresolved_when_nothing_loads node _ _ _ Hc Hregistered Hnone) as Hcache.
  destruct (discover_probing node file w candidates Hcache Hregistered)
    as (events & _ & Hrun).
  assert (filter (loads node (self w)) candidates = []) as Hfilter.
  { destruct (filter _ candidates) as [|engine rest] eqn:Hkept; [done |].
    assert (engine ∈ filter (loads node (self w)) candidates) as Hin
      by (rewrite Hkept; by left).
    apply list_elem_of_filter in Hin as [Hloads Hin].
    by destruct (Hnone engine Hin). }
  rewrite Hfilter in Hrun.
  do 2 eexists. split; [exact Hrun |].
  split; [done |]. split; [done |]. split.
  - intros engine Hin. by apply includes_after, join_includes.
  - simpl. by apply foldl_probe_unloadable.
Qed.

Lemma discover_no_backend_witness :
  ∃ w',
    discover Fixtures.nothing_installed "views/page.mustache" fresh
    = (inl (Error "No valid template engine installed, please install hogan.jsormustacheorhandlebars"), w')
    ∧ self w' = new_Temper.
Proof.
  destruct (discover_no_backend Fixtures.nothing_installed "views/page.mustache" fresh
              ["hogan.js"; "mustache"; "handlebars"])
    as (w' & message & Hrun & _ & -> & _ & Hself).
  - apply consistent_new.
  - reflexivity.
  - intros engine _ [compiler Hhandle]. discriminate Hhandle.
  - exists w'. split; [exact Hrun | exact Hself].
Defined.

(** C6. For a file whose extension is not in the registry, on an object
    with consistent caches, [discover] throws the "Unknown file extensions"
    error and the world is as before: the caches are untouched and no entry
    is added to the loader log. *)
Theorem discover_unknown_extension node file w :
  consistent (self w) →
  own_property supported (Path.extname file) = None →
  discover node file w = (inl UnknownExtension, w)
  ∧ loader_calls (log (discover node file w).2) = loader_calls (log w)
  ∧ native_requires (log (discover node file w).2) = native_requires (log w).
Proof.
  intros Hc Habsent.
  assert (installed (self w) !! Path.extname file = None) as Hcache.
  { destruct (installed (self w) !! Path.extname file) as [engine|] eqn:Hcache; [| done].
    destruct (Hc _ _ Hcache) as (_ & candidates & Hregistered & _). congruence. }
  by rewrite discover_unknown.
Qed.

Lemma discover_unknown_extension_witness :
  discover Fixtures.only_ejs "notes/readme.txt" fresh
  = (inl (Error "Unknown file extensions, cannot detect template engine."), fresh).
Proof.
  apply (discover_unknown_extension Fixtures.only_ejs "notes/readme.txt" fresh).
  - apply consistent_new.
  - reflexivity.
Defined.

(** C10. Whenever [discover] throws, whatever the reason, the resolution
    cache [installed] and the load cache [required] are what they were
    before the call. *)
Theorem discover_failure_keeps_caches node file w e w' :
  discover node file w = (inl e, w') →
  installed (self w') = installed (self w)
  ∧ required (self w') = required (self w).
Proof.
  intros Hrun.
  enough (self w' = self w) as -> by done.
  destruct (installed (self w) !! Path.extname file) as [engine|] eqn:Hcache.
  { by rewrite (discover_cached _ _ _ engine) in Hrun. }
  destruct (own_property supported (Path.extname file)) as [candidates|] eqn:Hregistered.
  - destruct (discover_probing node file w candidates Hcache Hregistered)
      as (events & _ & Hprobe).
    rewrite Hprobe in Hrun.
    destruct (filter _ candidates) as [|first rest] eqn:Hfilter; [| done].
    injection Hrun as _ <-. simpl. by apply foldl_probe_unloadable.
  - rewrite discover_unknown in Hrun by done. by injection Hrun as _ <-.
Qed.

Lemma discover_failure_keeps_caches_witness :
  installed (self (discover Fixtures.only_ejs "page.mustache" fresh).2) = ∅
  ∧ required (self (discover Fixtures.only_ejs "page.mustache" fresh).2) = ∅.
Proof.
  apply (discover_failure_keeps_caches Fixtures.only_ejs "page.mustache" fresh
           (NoBackendAvailable ["hogan.js"; "mustache"; "handlebars"])).
  vm_compute. reflexivity.
Defined.

(** ** Replacing the placeholder name *)

Lemma strip_prefix_sound pattern s after :
  JS.strip_prefix pattern s = Some after → s = pattern +:+ after.
Proof.
  revert s. induction pattern as [|p pattern IH]; intros s; simpl.
  - by intros [= ->].
  - destruct s as [|c s]; [done |].
    destruct (Ascii.eqb p c) eqn:Heq; [| done].
    apply Ascii.eqb_eq in Heq as ->. intros Hrest.
    by rewrite append_cons, <- (IH s Hrest).
Qed.

Lemma strip_prefix_complete pattern after :
  JS.strip_prefix pattern (pattern +:+ after) = Some after.
Proof.
  induction pattern as [|p pattern IH]; [by destruct after |].
  rewrite append_cons. simpl. by rewrite Ascii.eqb_refl.
Qed.

Lemma split_first_sound pattern s before after :
  JS.split_first pattern s = Some (before, after) →
  s = before +:+ pattern +:+ after.
Proof.
  revert before. induction s as [|c s IH]; intros before; simpl.
  - destruct (JS.strip_prefix pattern "") as [rest|] eqn:Hstrip; [| done].
    intros [= <- <-]. rewrite append_nil_l. by apply strip_prefix_sound.
  - destruct (JS.strip_prefix pattern (String c s)) as [rest|] eqn:Hstrip.
    + intros [= <- <-]. rewrite append_nil_l. by apply strip_prefix_sound.
    + destruct (JS.split_first pattern s) as [[before' after']|]; [| done].
      intros [= <- <-]. by rewrite append_cons, <- (IH before').
Qed.

(** The occurrence found is the first one. *)
Lemma split_first_first pattern s before after before' after' :
  JS.split_first pattern s = Some (before, after) →
  s = before' +:+ pattern +:+ after' →
  String.length before ≤ String.length before'.
Proof.
  revert before before'. induction s as [|c s IH]; intros before before'; simpl.
  - destruct (JS.strip_prefix pattern "") as [rest|]; [| done].
    intros [= <- <-] _. simpl. lia.
  - destruct (JS.strip_prefix pattern (String c s)) as [rest|] eqn:Hstrip.
    { intros [= <- <-] _. simpl. lia. }
    destruct (JS.split_first pattern s) as [[b a]|] eqn:Hsplit; [| done].
    intros [= <- <-] Hs.
    destruct before' as [|c' before'].
    + rewrite append_nil_l in Hs. rewrite Hs, strip_prefix_complete in Hstrip. done.
    + rewrite append_cons in Hs. injection Hs as -> Hs. simpl.
      specialize (IH b before' eq_refl Hs). lia.
Qed.

Lemma split_first_at_start pattern after :
  JS.split_first pattern (pattern +:+ after) = Some ("", after).
Proof.
  assert (∀ s, JS.strip_prefix pattern s = Some after →
               JS.split_first pattern s = Some ("", after)) as Hstart.
  { intros s Hstrip. destruct s; simpl; by rewrite Hstrip. }
  apply Hstart, strip_prefix_complete.
Qed.

Lemma split_first_complete pattern s :
  JS.includes s pattern → is_Some (JS.split_first pattern s).
Proof.
  intros (before & after & ->).
  induction before as [|c before IH].
  - rewrite append_nil_l, split_first_at_start. eauto.
  - rewrite append_cons. simpl.
    destruct (JS.strip_prefix pattern _); [done |].
    destruct IH as [[b a] ->]. done.
Qed.

Lemma substitution_cons matched before after (c : ascii) rest :
  c ≠ "$"%char →
  JS.substitution matched before after (String c rest)
  = String c (JS.substitution matched before after rest).
Proof.
  intros Hne. destruct c as [[] [] [] [] [] [] [] []]; try reflexivity.
  by destruct Hne.
Qed.

(** A replacement text without a dollar sign stands for itself. *)
Lemma substitution_plain matched before after replacement :
  no_dollar replacement →
  JS.substitution matched before after replacement = replacement.
Proof.
  unfold no_dollar, JS.chars.
  induction replacement as [|c rest IH]; [done |].
  intros Hno. simpl in Hno.
  rewrite substitution_cons.
  - f_equal. apply IH. intros Hin. apply Hno. by right.
  - intros ->. apply Hno. by left.
Qed.

Lemma no_dollar_function name : no_dollar name → no_dollar ("function " +:+ name).
Proof.
  unfold no_dollar, JS.chars. intros Hno Hin. simpl in Hin.
  repeat (apply elem_of_cons in Hin as [Hin | Hin]; [discriminate |]).
  done.
Qed.

Lemma replace_first_occurrence s pattern replacement before after :
  JS.split_first pattern s = Some (before, after) →
  no_dollar replacement →
  JS.replace s pattern replacement = before +:+ replacement +:+ after.
Proof.
  intros Hsplit Hplain. unfold JS.replace.
  by rewrite Hsplit, substitution_plain.
Qed.

(** ** Paths of runtime libraries *)

Lemma normalize_nonempty path : Path.normalize path ≠ "".
Proof.
  unfold Path.normalize. destruct (JS.chars path) as [|first rest]; [done |].
  cbv zeta. set (body := Path.normalize_string _ _).
  case_bool_decide as Hbody.
  - by repeat case_match.
  - destruct body as [|c body]; [done |].
    repeat case_match; rewrite ?append_cons; done.
Qed.

(** [path.join] never returns the empty string, so a library path it
    built is truthy. *)
Lemma join_nonempty parts : Path.join parts ≠ "".
Proof.
  unfold Path.join. destruct (filter _ parts); [done |].
  apply normalize_nonempty.
Qed.

(** ** Compilation *)

Lemma compile_with_unfold node read_member template engine name w compiler w1 :
  require node engine w = (inr compiler, w1) →
  compile_with node read_member template engine name w
  = match (dispatch node compiler template engine name w1).1 with
    | inl e => (inl e, w1)
    | inr (library, client, server) =>
        match (front_end_library read_member library w1).1 with
        | inl e => (inl e, w1)
        | inr text =>
            (inr {| library := text; client := client; server := server |}, w1)
        end
    end.
Proof.
  intros Hrequire. unfold compile_with, bind. rewrite Hrequire.
  pose proof (dispatch_world node compiler template engine name w1) as Hd.
  destruct (dispatch node compiler template engine name w1)
    as [[e|[[library client] server]] w2]; simpl in *; subst w2; [done |].
  pose proof (front_end_library_world read_member library w1) as Hf.
  destruct (front_end_library read_member library w1) as [[e|text] w3];
    simpl in *; by subst w3.
Qed.

Lemma require_loaded node engine w compiler :
  handle node (self w) engine = Some compiler →
  ∃ w1, require node engine w = (inr compiler, w1).
Proof.
  intros Hhandle. destruct (require_handle node engine w) as (events & _ & ->).
  rewrite Hhandle. eauto.
Qed.

Lemma require_not_loaded node engine w :
  ¬ loads node (self w) engine →
  ∃ w1, require node engine w = (inl (BackendNotInstalled engine), w1).
Proof.
  intros Hloads. destruct (require_handle node engine w) as (events & _ & ->).
  unfold loads in Hloads. destruct (handle node (self w) engine); [| eauto].
  destruct Hloads. eauto.
Qed.

(** Leaving the [switch] without a matching [case]. *)
Lemma dispatch_outside node compiler template engine name w :
  engine ∉ dispatch_set →
  dispatch node compiler template engine name w = (inr (None, Undefined, Undefined), w).
Proof.
  unfold dispatch_set. intros Hout.
  repeat (apply not_elem_of_cons in Hout as [? Hout]).
  unfold dispatch. by repeat case_decide.
Qed.

Lemma dispatch_ejs node compiler template name w server compiled source :
  native_compile compiler template None = inr server →
  native_compile compiler template (Some ejs_client_options) = inr compiled →
  toString compiled = inr source →
  dispatch node compiler template "ejs" name w
  = (inr (None,
          Str (JS.replace source "function anonymous" ("function " +:+ name)),
          server), w).
Proof.
  intros Hserver Hclient Hsource. unfold dispatch.
  repeat (case_decide; try done).
  unfold bind, lift, ret. fold ejs_client_options.
  by rewrite Hserver, Hclient, Hsource.
Qed.

(** When the [switch] is left through the case of an engine with a runtime
    library, [library] holds the path of that file next to the engine. *)
Lemma dispatch_library node compiler template engine name w relative result w' :
  runtime_library engine = Some relative →
  dispatch node compiler template engine name w = (inr result, w') →
  ∃ filename,
    resolve node engine = Some filename
    ∧ result.1.1 = Some (Path.join (Path.dirname filename :: relative)).
Proof.
  unfold runtime_library, dispatch, bind, lift, require_resolve, ret, throw.
  repeat case_decide; try congruence; intros [= <-];
    repeat (match goal with
            | |- context [native_compile ?c ?t ?o] => destruct (native_compile c t o)
            | |- context [native_precompile ?c ?t] => destruct (native_precompile c t)
            | |- context [toString ?v] => destruct (toString v)
            end; simpl; try done);
    destruct (resolve node engine) as [filename|]; simpl; try done;
    intros [= <- _]; by exists filename.
Qed.

(** The hogan.js case: the client text is the wrapper around what the
    engine precompiled. *)
Lemma dispatch_hogan_client node compiler template name w result w' :
  dispatch node compiler template "hogan.js" name w = (inr result, w') →
  ∃ precompiled,
    native_compile compiler template
      (Some {| opt_asString := Some 1; opt_client := None;
               opt_pretty := None; opt_compileDebug := None |}) = inr precompiled
    ∧ result.1.2 = Str (hulk_wrapper (join_element precompiled)).
Proof.
  unfold dispatch, bind, lift, require_resolve, ret, throw.
  case_decide; [| done].
  destruct (native_compile compiler template None); simpl; [done |].
  destruct (native_compile compiler template (Some _)) as [|precompiled]; simpl; [done |].
  destruct (resolve node "hogan.js"); simpl; [| done].
  intros [= <- _]. exists precompiled. split; [done |]. reflexivity.
Qed.

(** On an object that has a [read] method, the library handed back is what
    that method reads from the engine's runtime file. *)
Lemma compile_with_read_library node read template engine name w relative result w' :
  runtime_library engine = Some relative →
  compile_with node (Some read) template engine name w = (inr result, w') →
  ∃ filename,
    resolve node engine = Some filename
    ∧ read (Path.join (Path.dirname filename :: relative)) = inr (library result).
Proof.
  intros Hruntime Hrun.
  destruct (require node engine w) as [[e|compiler] w1] eqn:Hrequire.
  { unfold compile_with, bind in Hrun. by rewrite Hrequire in Hrun. }
  rewrite (compile_with_unfold _ _ _ _ _ _ _ _ Hrequire) in Hrun.
  destruct (dispatch node compiler template engine name w1)
    as [[e|[[path client] server]] w2] eqn:Hdispatch; simpl in Hrun; [done |].
  destruct (dispatch_library _ _ _ _ _ _ _ _ _ Hruntime Hdispatch)
    as (filename & Hresolve & Hpath). simpl in Hpath. subst path.
  exists filename. split; [done |].
  unfold front_end_library, this_read, lift in Hrun.
  rewrite decide_False in Hrun by apply join_nonempty. simpl in Hrun.
  destruct (read _) as [e|text]; [done |].
  by injection Hrun as <- _.
Qed.

(** On the object the constructor makes there is no [read]: for an engine
    with a runtime library [compile] never returns a result. *)
Lemma compile_read_missing node template engine name w relative :
  runtime_library engine = Some relative →
  ∃ e w', compile node template engine name w = (inl e, w').
Proof.
  intros Hruntime. unfold compile.
  destruct (require node engine w) as [[e|compiler] w1] eqn:Hrequire.
  { unfold compile_with, bind. rewrite Hrequire. eauto. }
  rewrite (compile_with_unfold _ _ _ _ _ _ _ _ Hrequire).
  destruct (dispatch node compiler template engine name w1)
    as [[e|[[path client] server]] w2] eqn:Hdispatch; simpl; [eauto |].
  destruct (dispatch_library _ _ _ _ _ _ _ _ _ Hruntime Hdispatch)
    as (filename & Hresolve & Hpath). simpl in Hpath. subst path.
  unfold front_end_library, this_read, throw.
  rewrite decide_False by apply join_nonempty. simpl. eauto.
Qed.

(** C3. Code against claim, with hogan.js, handlebars, ejs and jade all
    installed: for the three engines that ship a runtime library [compile]
    throws "this.read is not a function" instead of returning the library's
    contents, because the object has no [read] method; for ejs it returns a
    result whose library is the empty string. *)
Theorem compile_library_read_missing :
  (compile Fixtures.every_engine "Hello {{name}}" "hogan.js" "greet" fresh).1
    = inl (TypeError "this.read is not a function")
  ∧ (compile Fixtures.every_engine "Hello {{name}}" "handlebars" "greet" fresh).1
    = inl (TypeError "this.read is not a function")
  ∧ (compile Fixtures.every_engine "p= name" "jade" "greet" fresh).1
    = inl (TypeError "this.read is not a function")
  ∧ match (compile Fixtures.every_engine "Hello <%= name %>" "ejs" "greet" fresh).1 with
    | inr result => library result = ""
    | inl _ => False
    end.
Proof. repeat split; vm_compute; reflexivity. Qed.

(** C7, as the claim states it: an engine outside the dispatch set that is
    not installed makes [compile] throw, so it is not true that every such
    engine gives the empty result. *)
Lemma compile_outside_dispatch_counterexample :
  ¬ (∀ node template engine name w,
       engine ∉ dispatch_set →
       ∃ w', compile node template engine name w
             = (inr {| library := ""; client := Undefined; server := Undefined |}, w')).
Proof.
  intros Hclaim.
  destruct (Hclaim Fixtures.nothing_installed "Hello" "liquid" "greet" fresh) as [w' Hrun].
  - unfold dispatch_set. intros Hin.
    repeat (apply elem_of_cons in Hin as [Hin | Hin]; [discriminate |]).
    by apply elem_of_nil in Hin.
  - vm_compute in Hrun. discriminate Hrun.
Qed.

(** C7, amended. For an engine outside the dispatch set: when the loader
    has it (cached or installed) [compile] returns the result with an empty
    library and undefined client and server, and throws nothing; when the
    loader does not have it [compile] throws the loader's "isnt installed"
    error. *)
Theorem compile_outside_dispatch node template engine name w :
  engine ∉ dispatch_set →
  (loads node (self w) engine →
   ∃ w', compile node template engine name w
         = (inr {| library := ""; client := Undefined; server := Undefined |}, w'))
  ∧ (¬ loads node (self w) engine →
     ∃ w', compile node template engine name w
           = (inl (BackendNotInstalled engine), w')).
Proof.
  intros Hout. split.
  - intros [compiler Hhandle].
    destruct (require_loaded node engine w compiler Hhandle) as [w1 Hrequire].
    exists w1. unfold compile.
    rewrite (compile_with_unfold _ _ _ _ _ _ _ _ Hrequire).
    by rewrite dispatch_outside.
  - intros Hloads.
    destruct (require_not_loaded node engine w Hloads) as [w1 Hrequire].
    exists w1. unfold compile, compile_with, bind. by rewrite Hrequire.
Qed.

Lemma not_in_dispatch_set_mustache : "mustache" ∉ dispatch_set.
Proof.
  unfold dispatch_set. intros Hin.
  repeat (apply elem_of_cons in Hin as [Hin | Hin]; [discriminate |]).
  by apply elem_of_nil in Hin.
Qed.

Lemma compile_outside_dispatch_witness :
  ∃ w', compile Fixtures.only_mustache "Hello {{name}}" "mustache" "greet" fresh
        = (inr {| library := ""; client := Undefined; server := Undefined |}, w').
Proof.
  apply (compile_outside_dispatch Fixtures.only_mustache "Hello {{name}}" "mustache" "greet" fresh).
  - exact not_in_dispatch_set_mustache.
  - exists Fixtures.mustache. reflexivity.
Defined.

(** ** The ejs scenario *)

Lemma handle_foldl_probe node extname temper (candidates : list string) engine :
  handle node (foldl (probe node extname) temper candidates) engine
  = handle node temper engine.
Proof.
  revert temper. induction candidates as [|first rest IH]; intros temper; [done |].
  simpl. by rewrite IH, handle_probe.
Qed.

(** What the loader has for an engine is the same before and after
    [discover]. *)
Lemma handle_discover node file w engine :
  handle node (self (discover node file w).2) engine = handle node (self w) engine.
Proof.
  destruct (installed (self w) !! Path.extname file) as [resolved|] eqn:Hcache.
  { by rewrite (discover_cached _ _ _ resolved). }
  destruct (own_property supported (Path.extname file)) as [candidates|] eqn:Hregistered.
  - destruct (discover_probing node file w candidates Hcache Hregistered)
      as (events & _ & ->). simpl. apply handle_foldl_probe.
  - by rewrite discover_unknown.
Qed.

(** C8, as the claim states it.  With only ejs installed, [discover] on the
    path [.ejs] throws: Node's [path.extname] gives a dot-file no extension.
    And with the logical name [$$] the client text does not contain
    [function $$]: [replace] reads [$$] in its replacement as one dollar
    sign. *)
Lemma ejs_scenario_counterexample :
  discover Fixtures.only_ejs ".ejs" fresh = (inl UnknownExtension, fresh)
  ∧ match (compile Fixtures.only_ejs "Hello" "ejs" "$$" fresh).1 with
    | inr result =>
        client result = Str "function $(locals) { return 'Hello'; }"
        ∧ ¬ JS.includes "function $(locals) { return 'Hello'; }" "function $$"
    | inl _ => False
    end.
Proof.
  split; [vm_compute; reflexivity |].
  vm_compute (compile _ _ _ _ _).1. cbv beta iota. split; [reflexivity |].
  intros Hincludes. apply split_first_complete in Hincludes.
  vm_compute in Hincludes. by destruct Hincludes.
Qed.

(** C8, amended.  With ejs available to the loader and consistent caches,
    [discover] on a file whose extension is [.ejs] returns [ejs].  Then,
    for a template the engine compiles and a logical name without a dollar
    sign, [compile] returns a result whose library is the empty string,
    whose server is the engine's plain compile of the template, and whose
    client is the text of the engine's compile with [client: true] and
    [compileDebug: false] in which the first [function anonymous] has become
    [function] followed by the logical name. *)
Theorem ejs_scenario node compiler file template name w server compiled source before after :
  consistent (self w) →
  Path.extname file = ".ejs" →
  handle node (self w) "ejs" = Some compiler →
  native_compile compiler template None = inr server →
  native_compile compiler template (Some ejs_client_options) = inr compiled →
  toString compiled = inr source →
  JS.split_first "function anonymous" source = Some (before, after) →
  no_dollar name →
  (discover node file w).1 = inr "ejs"
  ∧ ∃ w',
      compile node template "ejs" name (discover node file w).2
      = (inr {| library := "";
                client := Str (before +:+ ("function " +:+ name) +:+ after);
                server := server |}, w')
      ∧ source = before +:+ "function anonymous" +:+ after
      ∧ JS.includes (before +:+ ("function " +:+ name) +:+ after) ("function " +:+ name).
Proof.
  intros Hc Hext Hhandle Hserver Hclient Hsource Hsplit Hname. split.
  - destruct (installed (self w) !! Path.extname file) as [engine|] eqn:Hcache.
    + rewrite (discover_cached _ _ _ engine) by done. simpl.
      destruct (Hc _ _ Hcache) as (_ & candidates & Hregistered & Hin).
      rewrite Hext in Hregistered. injection Hregistered as <-.
      by apply list_elem_of_singleton in Hin as ->.
    + destruct (discover_probing node file w ["ejs"] Hcache) as (events & _ & ->).
      { by rewrite Hext. }
      simpl. rewrite filter_cons, decide_True; [done |].
      unfold loads. rewrite Hhandle. eauto.
  - destruct (require_loaded node "ejs" (discover node file w).2 compiler) as [w1 Hrequire].
    { by rewrite handle_discover. }
    exists w1. split; [| split].
    + unfold compile. rewrite (compile_with_unfold _ _ _ _ _ _ _ _ Hrequire).
      rewrite (dispatch_ejs _ _ _ _ _ server compiled source) by done. simpl.
      by rewrite (replace_first_occurrence _ _ _ before after)
        by (done || by apply no_dollar_function).
    + by apply split_first_sound.
    + apply includes_middle.
Qed.

Lemma ejs_scenario_witness :
  (discover Fixtures.only_ejs "views/greet.ejs" fresh).1 = inr "ejs"
  ∧ ∃ w',
      compile Fixtures.only_ejs "Hello" "ejs" "greet"
        (discover Fixtures.only_ejs "views/greet.ejs" fresh).2
      = (inr {| library := "";
                client := Str ("" +:+ ("function " +:+ "greet") +:+ "(locals) { return 'Hello'; }");
                server := Function "function (locals) { return 'Hello'; }" (λ _, inr "Hello") |}, w')
      ∧ "function anonymous(locals) { return 'Hello'; }"
        = "" +:+ "function anonymous" +:+ "(locals) { return 'Hello'; }"
      ∧ JS.includes ("" +:+ ("function " +:+ "greet") +:+ "(locals) { return 'Hello'; }")
          ("function " +:+ "greet").
Proof.
  apply (ejs_scenario Fixtures.only_ejs Fixtures.ejs "views/greet.ejs" "Hello" "greet" fresh
           (Function "function (locals) { return 'Hello'; }" (λ _, inr "Hello"))
           (Function "function anonymous(locals) { return 'Hello'; }" (λ _, inr "Hello"))
           "function anonymous(locals) { return 'Hello'; }"
           "" "(locals) { return 'Hello'; }").
  - apply consistent_new.
  - reflexivity.
  - reflexivity.
  - reflexivity.
  - reflexivity.
  - reflexivity.
  - reflexivity.
  - unfold no_dollar. vm_compute. intros Hin.
    repeat (apply elem_of_cons in Hin as [Hin | Hin]; [discriminate |]).
    by apply elem_of_nil in Hin.
Defined.

(** ** Brackets of the hogan.js client text *)

Lemma open_brackets_append pending (a b : string) :
  open_brackets pending (a +:+ b)
  = match open_brackets pending a with
    | Some still_open => open_brackets still_open b
    | None => None
    end.
Proof.
  revert pending. induction a as [|c a IH]; intros pending; [done |].
  rewrite append_cons. simpl.
  destruct (closer c); [by rewrite IH |].
  destruct (is_closer c); [| by rewrite IH].
  destruct pending as [|expected others]; [done |].
  destruct (Ascii.eqb c expected); [by rewrite IH | done].
Qed.

(** Brackets opened before a text are still open, underneath, after it. *)
Lemma open_brackets_frame pending s still_open outer :
  open_brackets pending s = Some still_open →
  open_brackets (pending ++ outer) s = Some (still_open ++ outer).
Proof.
  revert pending. induction s as [|c s IH]; intros pending; simpl.
  - by intros [= ->].
  - destruct (closer c) as [expected|]; [apply (IH (expected :: pending)) |].
    destruct (is_closer c); [| apply IH].
    destruct pending as [|expected others]; [done |]. simpl.
    destruct (Ascii.eqb c expected); [apply IH | done].
Qed.

(** Around any precompiled text with matched brackets, the wrapper leaves
    its opening parenthesis and its opening brace unclosed. *)
Lemma hulk_wrapper_open precompiled :
  balanced precompiled →
  open_brackets [] (hulk_wrapper precompiled) = Some ["}"%char; ")"%char].
Proof.
  intros Hbalanced. unfold hulk_wrapper.
  rewrite open_brackets_append.
  assert (open_brackets [] "(function hulk() {var template = new Hogan.Template("
          = Some [")"%char; "}"%char; ")"%char]) as -> by reflexivity.
  rewrite open_brackets_append.
  pose proof (open_brackets_frame [] precompiled []
                [")"%char; "}"%char; ")"%char] Hbalanced) as Hframe.
  simpl in Hframe. rewrite Hframe. reflexivity.
Qed.

Lemma hulk_wrapper_unbalanced precompiled :
  balanced precompiled → ¬ balanced (hulk_wrapper precompiled).
Proof.
  intros Hbalanced. unfold balanced. by rewrite hulk_wrapper_open.
Qed.

(** Whatever hogan.js precompiles a template to, as long as its own
    brackets match, the client text [compile] builds is not balanced. *)
Lemma hogan_client_unbalanced node compiler template name w result w' precompiled :
  dispatch node compiler template "hogan.js" name w = (inr result, w') →
  native_compile compiler template
    (Some {| opt_asString := Some 1; opt_client := None;
             opt_pretty := None; opt_compileDebug := None |}) = inr precompiled →
  balanced (join_element precompiled) →
  ∃ text, result.1.2 = Str text ∧ ¬ balanced text.
Proof.
  intros Hdispatch Hnative Hbalanced.
  destruct (dispatch_hogan_client _ _ _ _ _ _ _ Hdispatch) as (found & Hfound & ->).
  rewrite Hnative in Hfound. injection Hfound as <-.
  eexists. split; [done |]. by apply hulk_wrapper_unbalanced.
Qed.

(** C9. Code against claim, with hogan.js installed: the client text built
    by the hogan.js case opens [(function hulk() {] and ends after the
    [return] statement; its last brace and its first parenthesis are never
    closed, so the text is not a balanced expression and, unlike the server
    closure, is never applied. *)
Theorem hogan_client_left_open :
  match (dispatch Fixtures.only_hogan Fixtures.hogan "Hello" "hogan.js" "greet" fresh).1 with
  | inr (_, Str text, _) =>
      text = "(function hulk() {var template = new Hogan.Template({code: function (c,p,i) { return 'Hello'; }});return function render(data) { return template.render(data); };"
      ∧ balanced "{code: function (c,p,i) { return 'Hello'; }}"
      ∧ open_brackets [] text = Some ["}"%char; ")"%char]
      ∧ ¬ balanced text
  | _ => False
  end.
Proof.
  vm_compute (dispatch _ _ _ _ _ _).1. cbv beta iota.
  split; [reflexivity |]. split; [reflexivity |]. split; [reflexivity |].
  unfold balanced. vm_compute. discriminate.
Qed.

(** * Further properties of the three methods *)

(** ** What discovery returns and what it leaves behind *)



(** X2. On a file whose extension is registered and not yet resolved,
    [discover] hands every candidate of the extension to the loader, once
    each and in registry order, whether or not an earlier one has loaded. *)
Theorem discover_asks_for_every_candidate node file w (candidates : list string) :
  installed (self w) !! Path.extname file = None →
  own_property supported (Path.extname file) = Some candidates →
  loader_calls (log (discover node file w).2) = loader_calls (log w) ++ candidates.
Proof. apply discover_probes_every_candidate. Qed.

Lemma discover_asks_for_every_candidate_witness :
  loader_calls (log (discover Fixtures.only_hogan "views/page.mustache" fresh).2)
  = loader_calls (log fresh) ++ ["hogan.js"; "mustache"; "handlebars"].
Proof.
  apply (discover_asks_for_every_candidate Fixtures.only_hogan "views/page.mustache" fresh).
  - reflexivity.
  - reflexivity.
Defined.

(** X3. After [discover] has run on a registered, unresolved extension for
    which some candidate loads, the resolution cache holds the last
    candidate that loads, and from then on [discover] on any file with that
    extension returns that engine and changes nothing. *)
Theorem discover_settles_on_last_loadable node file w (candidates : list string) engine :
  installed (self w) !! Path.extname file = None →
  own_property supported (Path.extname file) = Some candidates →
  engine ∈ candidates →
  loads node (self w) engine →
  ∃ settled,
    last (filter (loads node (self w)) candidates) = Some settled
    ∧ installed (self (discover node file w).2) !! Path.extname file = Some settled
    ∧ ∀ again,
        Path.extname again = Path.extname file →
        discover node again (discover node file w).2
        = (inr settled, (discover node file w).2).
Proof.
  intros Hcache Hregistered Hin Hloads.
  pose proof (discover_resolves_to_last node file w candidates Hcache Hregistered) as Hlast.
  destruct (last (filter (loads node (self w)) candidates)) as [settled|] eqn:Hsettled.
  - exists settled. split; [done |]. split; [done |].
    intros again Hsame. apply discover_cached. by rewrite Hsame.
  - apply last_None in Hsettled.
    assert (engine ∈ filter (loads node (self w)) candidates) as Hkept
      by by apply list_elem_of_filter.
    rewrite Hsettled in Hkept. by apply elem_of_nil in Hkept.
Qed.

Lemma discover_settles_on_last_loadable_witness :
  ∃ settled,
    last (filter (loads Fixtures.hogan_and_handlebars (self fresh))
            ["hogan.js"; "mustache"; "handlebars"]) = Some settled
    ∧ installed (self (discover Fixtures.hogan_and_handlebars "a.mustache" fresh).2)
        !! Path.extname "a.mustache" = Some settled
    ∧ ∀ again,
        Path.extname again = Path.extname "a.mustache" →
        discover Fixtures.hogan_and_handlebars again
          (discover Fixtures.hogan_and_handlebars "a.mustache" fresh).2
        = (inr settled, (discover Fixtures.hogan_and_handlebars "a.mustache" fresh).2).
Proof.
  apply (discover_settles_on_last_loadable Fixtures.hogan_and_handlebars "a.mustache" fresh
           ["hogan.js"; "mustache"; "handlebars"] "hogan.js").
  - reflexivity.
  - reflexivity.
  - left.
  - exists Fixtures.hogan. reflexivity.
Defined.

(** X4. When exactly one candidate of a registered, unresolved extension
    loads, [discover] is idempotent: the first call returns that engine and
    a second call returns it again without changing the object or the
    loader log. *)
Theorem discover_idempotent_one_loadable node file w (candidates : list string) engine :
  installed (self w) !! Path.extname file = None →
  own_property supported (Path.extname file) = Some candidates →
  filter (loads node (self w)) candidates = [engine] →
  (discover node file w).1 = inr engine
  ∧ discover node file (discover node file w).2
    = (inr engine, (discover node file w).2).
Proof.
  intros Hcache Hregistered Hone.
  pose proof (discover_resolves_to_last node file w candidates Hcache Hregistered) as Hlast.
  rewrite Hone in Hlast. simpl in Hlast. split.
  - destruct (discover_probing node file w candidates Hcache Hregistered)
      as (events & _ & ->). by rewrite Hone.
  - by apply discover_cached.
Qed.

Lemma discover_idempotent_one_loadable_witness :
  (discover Fixtures.only_hogan "a.mustache" fresh).1 = inr "hogan.js"
  ∧ discover Fixtures.only_hogan "a.mustache" (discover Fixtures.only_hogan "a.mustache" fresh).2
    = (inr "hogan.js", (discover Fixtures.only_hogan "a.mustache" fresh).2).
Proof.
  apply (discover_idempotent_one_loadable Fixtures.only_hogan "a.mustache" fresh
           ["hogan.js"; "mustache"; "handlebars"] "hogan.js").
  - reflexivity.
  - reflexivity.
  - vm_compute. reflexivity.
Defined.

(** ** What the methods do to the three caches *)

Lemma store_keeps node temper engine compiler cached kept :
  handle node temper engine = Some compiler →
  required temper !! cached = Some kept →
  required (store engine compiler temper) !! cached = Some kept.
Proof.
  intros Hhandle Hcached. simpl.
  destruct (decide (engine = cached)) as [->|Hne].
  - rewrite lookup_insert_eq. unfold handle in Hhandle.
    rewrite Hcached in Hhandle. done.
  - by rewrite lookup_insert_ne.
Qed.

Lemma probe_keeps node extname temper engine cached kept :
  required temper !! cached = Some kept →
  required (probe node extname temper engine) !! cached = Some kept.
Proof.
  intros Hcached. unfold probe.
  destruct (handle node temper engine) as [compiler|] eqn:Hhandle; [| done].
  by apply (store_keeps node temper engine compiler).
Qed.

Lemma foldl_probe_keeps node extname temper (candidates : list string) cached kept :
  required temper !! cached = Some kept →
  required (foldl (probe node extname) temper candidates) !! cached = Some kept.
Proof.
  revert temper. induction candidates as [|engine rest IH]; intros temper Hcached; [done |].
  simpl. by apply IH, probe_keeps.
Qed.

Lemma require_keeps node engine w cached kept :
  required (self w) !! cached = Some kept →
  required (self (require node engine w).2) !! cached = Some kept.
Proof.
  intros Hcached. destruct (require_handle node engine w) as (events & _ & ->).
  destruct (handle node (self w) engine) as [compiler|] eqn:Hhandle; [| done].
  by apply (store_keeps node (self w) engine compiler).
Qed.

Lemma discover_keeps node file w cached kept :
  required (self w) !! cached = Some kept →
  required (self (discover node file w).2) !! cached = Some kept.
Proof.
  intros Hcached.
  destruct (installed (self w) !! Path.extname file) as [engine|] eqn:Hcache.
  { by rewrite (discover_cached _ _ _ engine). }
  destruct (own_property supported (Path.extname file)) as [candidates|] eqn:Hregistered.
  - destruct (discover_probing node file w candidates Hcache Hregistered)
      as (events & _ & ->). by apply foldl_probe_keeps.
  - by rewrite discover_unknown.
Qed.

Lemma compile_with_world node read_member template engine name w :
  (compile_with node read_member template engine name w).2 = (require node engine w).2.
Proof.
  destruct (require node engine w) as [[e|compiler] w1] eqn:Hrequire.
  - unfold compile_with, bind. by rewrite Hrequire.
  - rewrite (compile_with_unfold _ _ _ _ _ _ _ _ Hrequire).
    destruct (dispatch node compiler template engine name w1).1
      as [e|[[library client] server]]; [done |].
    by destruct (front_end_library read_member library w1).1.
Qed.

Lemma foldl_probe_loaded node extname temper (candidates : list string) engine compiler :
  engine ∈ candidates →
  handle node temper engine = Some compiler →
  required (foldl (probe node extname) temper candidates) !! engine = Some compiler.
Proof.
  revert temper. induction candidates as [|first rest IH]; intros temper Hin Hhandle.
  { by apply elem_of_nil in Hin. }
  simpl. apply elem_of_cons in Hin as [->|Hin].
  - apply foldl_probe_keeps. unfold probe. rewrite Hhandle. simpl.
    apply lookup_insert_eq.
  - apply IH; [done |]. by rewrite handle_probe.
Qed.

(** X5. Discovery loads more than it returns: after [discover] has run on
    a registered, unresolved extension, every candidate of the extension that
    the loader could load has its handle in the load cache, not only the
    engine returned. *)
Theorem discover_caches_every_loadable_candidate node file w
    (candidates : list string) engine compiler :
  installed (self w) !! Path.extname file = None →
  own_property supported (Path.extname file) = Some candidates →
  engine ∈ candidates →
  handle node (self w) engine = Some compiler →
  required (self (discover node file w).2) !! engine = Some compiler.
Proof.
  intros Hcache Hregistered Hin Hhandle.
  destruct (discover_probing node file w candidates Hcache Hregistered)
    as (events & _ & ->). simpl.
  by apply foldl_probe_loaded.
Qed.

Lemma discover_caches_every_loadable_candidate_witness :
  required (self (discover Fixtures.hogan_and_handlebars "a.mustache" fresh).2) !! "handlebars"
  = Some Fixtures.handlebars.
Proof.
  apply (discover_caches_every_loadable_candidate Fixtures.hogan_and_handlebars
           "a.mustache" fresh ["hogan.js"; "mustache"; "handlebars"]).
  - reflexivity.
  - reflexivity.
  - right. right. left.
  - reflexivity.
Defined.

(** X6. The load cache only grows: a handle that is in [required] before a
    call to [require], [discover] or [compile] is still there, unchanged,
    after it, whether the call returns or throws. *)
Theorem load_cache_only_grows node w cached kept engine file template name :
  required (self w) !! cached = Some kept →
  required (self (require node engine w).2) !! cached = Some kept
  ∧ required (self (discover node file w).2) !! cached = Some kept
  ∧ required (self (compile node template engine name w).2) !! cached = Some kept.
Proof.
  intros Hcached. split; [| split].
  - by apply require_keeps.
  - by apply discover_keeps.
  - unfold compile. rewrite compile_with_world. by apply require_keeps.
Qed.

Lemma load_cache_only_grows_witness :
  required (self (require Fixtures.every_engine "hogan.js"
                    (require Fixtures.only_ejs "ejs" fresh).2).2) !! "ejs" = Some Fixtures.ejs
  ∧ required (self (discover Fixtures.every_engine "a.mustache"
                      (require Fixtures.only_ejs "ejs" fresh).2).2) !! "ejs" = Some Fixtures.ejs
  ∧ required (self (compile Fixtures.every_engine "Hello" "jade" "greet"
                      (require Fixtures.only_ejs "ejs" fresh).2).2) !! "ejs" = Some Fixtures.ejs.
Proof.
  apply (load_cache_only_grows Fixtures.every_engine
           (require Fixtures.only_ejs "ejs" fresh).2 "ejs" Fixtures.ejs
           "hogan.js" "a.mustache" "Hello" "greet").
  reflexivity.
Defined.

Lemma installed_foldl_probe_other node extname temper (candidates : list string) other :
  other ≠ extname →
  installed (foldl (probe node extname) temper candidates) !! other
  = installed temper !! other.
Proof.
  intros Hne. revert temper.
  induction candidates as [|engine rest IH]; intros temper; [done |].
  simpl. rewrite IH. unfold probe.
  destruct (handle node temper engine); [| done].
  simpl. by rewrite lookup_insert_ne.
Qed.

Lemma cache_foldl_probe node extname temper (candidates : list string) :
  cache (foldl (probe node extname) temper candidates) = cache temper.
Proof.
  revert temper. induction candidates as [|engine rest IH]; intros temper; [done |].
  simpl. rewrite IH. unfold probe. by destruct (handle node temper engine).
Qed.

Lemma require_installed node engine w :
  installed (self (require node engine w).2) = installed (self w)
  ∧ cache (self (require node engine w).2) = cache (self w).
Proof.
  destruct (require_handle node engine w) as (events & _ & ->).
  by destruct (handle node (self w) engine).
Qed.

Lemma discover_installed_other node file w other :
  other ≠ Path.extname file →
  installed (self (discover node file w).2) !! other = installed (self w) !! other.
Proof.
  intros Hne.
  destruct (installed (self w) !! Path.extname file) as [resolved|] eqn:Hresolved.
  { by rewrite (discover_cached _ _ _ resolved). }
  destruct (own_property supported (Path.extname file)) as [candidates|] eqn:Hregistered.
  - destruct (discover_probing node file w candidates Hresolved Hregistered)
      as (events & _ & ->). by apply installed_foldl_probe_other.
  - by rewrite discover_unknown.
Qed.

Lemma discover_cache node file w :
  cache (self (discover node file w).2) = cache (self w).
Proof.
  destruct (installed (self w) !! Path.extname file) as [resolved|] eqn:Hresolved.
  { by rewrite (discover_cached _ _ _ resolved). }
  destruct (own_property supported (Path.extname file)) as [candidates|] eqn:Hregistered.
  - destruct (discover_probing node file w candidates Hresolved Hregistered)
      as (events & _ & ->). apply cache_foldl_probe.
  - by rewrite discover_unknown.
Qed.

(** X7. What the methods leave alone: [require] and [compile] never write
    the resolution cache [installed]; [discover] writes it at most under the
    extension of the file it was given; and none of the three ever writes
    the file cache [cache]. *)
Theorem caches_left_alone node w engine file template name :
  installed (self (require node engine w).2) = installed (self w)
  ∧ installed (self (compile node template engine name w).2) = installed (self w)
  ∧ (∀ other,
       other ≠ Path.extname file →
       installed (self (discover node file w).2) !! other = installed (self w) !! other)
  ∧ cache (self (require node engine w).2) = cache (self w)
  ∧ cache (self (discover node file w).2) = cache (self w)
  ∧ cache (self (compile node template engine name w).2) = cache (self w).
Proof.
  destruct (require_installed node engine w) as [Hinstalled Hcache].
  pose proof (discover_installed_other node file w) as Hframe.
  pose proof (discover_cache node file w) as Hdiscover.
  unfold compile. rewrite compile_with_world. done.
Qed.

(** ** Invariants of every object a program can reach *)

Lemma coherent_store node temper engine compiler :
  coherent node temper →
  handle node temper engine = Some compiler →
  coherent node (store engine compiler temper).
Proof.
  intros Hco Hhandle cached kept. simpl.
  destruct (decide (engine = cached)) as [<-|Hne].
  - rewrite lookup_insert_eq. intros [= <-].
    unfold handle in Hhandle.
    destruct (required temper !! engine) as [found|] eqn:Hfound; [| done].
    injection Hhandle as ->. by apply Hco.
  - rewrite lookup_insert_ne by done. apply Hco.
Qed.

Lemma coherent_probe node extname temper engine :
  coherent node temper → coherent node (probe node extname temper engine).
Proof.
  intros Hco. unfold probe.
  destruct (handle node temper engine) as [compiler|] eqn:Hhandle; [| done].
  intros cached kept Hcached. simpl in Hcached.
  by apply (coherent_store node temper engine compiler Hco Hhandle cached kept).
Qed.

Lemma coherent_foldl_probe node extname temper (candidates : list string) :
  coherent node temper → coherent node (foldl (probe node extname) temper candidates).
Proof.
  revert temper. induction candidates as [|engine rest IH]; intros temper Hco; [done |].
  simpl. by apply IH, coherent_probe.
Qed.

Lemma require_coherent node engine w :
  coherent node (self w) → coherent node (self (require node engine w).2).
Proof.
  intros Hco. destruct (require_handle node engine w) as (events & _ & ->).
  destruct (handle node (self w) engine) as [compiler|] eqn:Hhandle; [| done].
  by apply coherent_store.
Qed.

Lemma discover_coherent node file w :
  coherent node (self w) → coherent node (self (discover node file w).2).
Proof.
  intros Hco.
  destruct (installed (self w) !! Path.extname file) as [engine|] eqn:Hcache.
  { by rewrite (discover_cached _ _ _ engine). }
  destruct (own_property supported (Path.extname file)) as [candidates|] eqn:Hregistered.
  - destruct (discover_probing node file w candidates Hcache Hregistered)
      as (events & _ & ->). by apply coherent_foldl_probe.
  - by rewrite discover_unknown.
Qed.

(** X8. On every object reached from [new Temper()] through [require],
    [discover] and [compile], in any order and whatever they returned or
    threw: an extension is resolved only to one of its registered candidates,
    and only to an engine whose handle is in the load cache; every handle in
    the load cache is the module Node gives for that name; and the file cache
    is still empty. *)
Theorem reachable_invariant node w :
  reachable node w →
  consistent (self w) ∧ coherent node (self w) ∧ cache (self w) = ∅.
Proof.
  induction 1 as [|engine w _ IH|file w _ IH|template engine name w _ IH].
  - split; [apply consistent_new |]. split; [| done].
    intros engine compiler Hin. simpl in Hin. by rewrite lookup_empty in Hin.
  - destruct IH as (Hc & Hco & Hcache).
    split; [by apply require_consistent |]. split; [by apply require_coherent |].
    by rewrite (proj2 (require_installed node engine w)).
  - destruct IH as (Hc & Hco & Hcache).
    split; [by apply discover_consistent |]. split; [by apply discover_coherent |].
    by rewrite discover_cache.
  - destruct IH as (Hc & Hco & Hcache).
    unfold compile. rewrite compile_with_world.
    split; [by apply require_consistent |]. split; [by apply require_coherent |].
    by rewrite (proj2 (require_installed node engine w)).
Qed.

Lemma reachable_invariant_witness :
  consistent (self (compile Fixtures.hogan_and_handlebars "Hello" "hogan.js" "greet"
                      (discover Fixtures.hogan_and_handlebars "a.mustache" fresh).2).2)
  ∧ coherent Fixtures.hogan_and_handlebars
      (self (compile Fixtures.hogan_and_handlebars "Hello" "hogan.js" "greet"
               (discover Fixtures.hogan_and_handlebars "a.mustache" fresh).2).2)
  ∧ cache (self (compile Fixtures.hogan_and_handlebars "Hello" "hogan.js" "greet"
                   (discover Fixtures.hogan_and_handlebars "a.mustache" fresh).2).2) = ∅.
Proof.
  apply (reachable_invariant Fixtures.hogan_and_handlebars).
  apply reach_compile, reach_discover, reach_new.
Defined.

(** ** The loader, called again *)

(** X9. Once [require] has returned a handle for an engine, asking again
    returns the same handle from the load cache: Node's [require] is not
    asked a second time and the object does not change. *)
Theorem require_again_hits_cache node engine w compiler :
  (require node engine w).1 = inr compiler →
  require node engine (require node engine w).2
  = (inr compiler, logged (require node engine w).2 [LoaderCall engine]).
Proof.
  intros Hfirst. apply require_cached.
  destruct (require_handle node engine w) as (events & _ & Hrun).
  rewrite Hrun in Hfirst |- *.
  destruct (handle node (self w) engine) as [found|]; [| done].
  simpl in *. injection Hfirst as ->. apply lookup_insert_eq.
Qed.

Lemma require_again_hits_cache_witness :
  require Fixtures.only_ejs "ejs" (require Fixtures.only_ejs "ejs" fresh).2
  = (inr Fixtures.ejs, logged (require Fixtures.only_ejs "ejs" fresh).2 [LoaderCall "ejs"]).
Proof.
  apply (require_again_hits_cache Fixtures.only_ejs "ejs" fresh Fixtures.ejs).
  reflexivity.
Defined.

(** ** Compilation, whatever the engine *)

(** X10. [compile] goes to the loader exactly once, for the engine it was
    given, and that call is all it does to the object: whether it returns or
    throws later, the object is left as [require] on that engine leaves it,
    so the handle of an engine that loaded stays cached even when compiling
    failed. *)
Theorem compile_loads_once node template engine name w :
  loader_calls (log (compile node template engine name w).2)
  = loader_calls (log w) ++ [engine]
  ∧ (compile node template engine name w).2 = (require node engine w).2.
Proof.
  unfold compile. rewrite compile_with_world. split; [| done].
  destruct (require_handle node engine w) as (events & Hcalls & ->).
  destruct (handle node (self w) engine); simpl;
    by rewrite loader_calls_app, Hcalls.
Qed.

(** X11. An engine the loader does not have makes [compile] throw the
    loader's "isnt installed" error, whichever engine it is, before anything
    is compiled; the caches are untouched and Node was asked once. *)
Theorem compile_engine_not_installed node template engine name w :
  ¬ loads node (self w) engine →
  compile node template engine name w
  = (inl (BackendNotInstalled engine),
     logged w [LoaderCall engine; NativeRequire engine]).
Proof.
  intros Hloads. unfold loads, handle in Hloads.
  destruct (required (self w) !! engine) as [cached|] eqn:Hcached.
  { destruct Hloads. eauto. }
  destruct (modules node engine) as [compiler|] eqn:Hnode.
  { destruct Hloads. eauto. }
  unfold compile, compile_with, bind.
  by rewrite require_missing.
Qed.

Lemma compile_engine_not_installed_witness :
  compile Fixtures.only_ejs "p= name" "jade" "greet" fresh
  = (inl (BackendNotInstalled "jade"),
     logged fresh [LoaderCall "jade"; NativeRequire "jade"]).
Proof.
  apply (compile_engine_not_installed Fixtures.only_ejs "p= name" "jade" "greet" fresh).
  intros [compiler Hhandle]. discriminate Hhandle.
Defined.

Lemma dispatch_first_compile node compiler template engine name w e :
  engine ∈ dispatch_set →
  native_compile compiler template None = inl e →
  dispatch node compiler template engine name w = (inl e, w).
Proof.
  unfold dispatch_set. intros Hin Hthrows.
  unfold dispatch, bind, lift.
  repeat (apply elem_of_cons in Hin as [-> | Hin];
          [repeat (case_decide; try done); by rewrite Hthrows |]).
  by apply elem_of_nil in Hin.
Qed.

(** X12. An error thrown by the engine's own [compile(template)] comes out
    of [compile] as it is, for each of the four engines of the dispatch
    set: nothing catches or rewrites it. *)
Theorem compile_propagates_engine_error node template engine name w compiler e :
  engine ∈ dispatch_set →
  handle node (self w) engine = Some compiler →
  native_compile compiler template None = inl e →
  ∃ w', compile node template engine name w = (inl e, w').
Proof.
  intros Hin Hhandle Hthrows.
  destruct (require_loaded node engine w compiler Hhandle) as [w1 Hrequire].
  exists w1. unfold compile.
  rewrite (compile_with_unfold _ _ _ _ _ _ _ _ Hrequire).
  by rewrite (dispatch_first_compile _ _ _ _ _ _ e).
Qed.

Lemma compile_propagates_engine_error_witness :
  ∃ w', compile (Fixtures.install [("ejs", Fixtures.mustache)]) "<%= name" "ejs" "greet" fresh
        = (inl (TypeError "compiler.compile is not a function"), w').
Proof.
  apply (compile_propagates_engine_error (Fixtures.install [("ejs", Fixtures.mustache)])
           "<%= name" "ejs" "greet" fresh Fixtures.mustache).
  - right. right. left.
  - reflexivity.
  - reflexivity.
Defined.

(** X13. The three engines that have a runtime library never get a result
    out of [compile]: the call throws, and when the loader, the engine and
    [require.resolve] all did their part the error is the [TypeError] of
    calling the [read] method the object does not have. *)
Theorem compile_with_runtime_library_throws node template engine name w :
  engine ∈ ["hogan.js"; "handlebars"; "jade"] →
  (∃ e w', compile node template engine name w = (inl e, w'))
  ∧ ∀ compiler w1 result w2,
      require node engine w = (inr compiler, w1) →
      dispatch node compiler template engine name w1 = (inr result, w2) →
      compile node template engine name w
      = (inl (TypeError "this.read is not a function"), w1).
Proof.
  intros Hin.
  assert (∃ relative, runtime_library engine = Some relative) as [relative Hruntime].
  { repeat (apply elem_of_cons in Hin as [-> | Hin]; [by eexists |]).
    by apply elem_of_nil in Hin. }
  split; [by apply (compile_read_missing _ _ _ _ _ relative) |].
  intros compiler w1 [[path client] server] w2 Hrequire Hdispatch.
  unfold compile. rewrite (compile_with_unfold _ _ _ _ _ _ _ _ Hrequire).
  rewrite Hdispatch. simpl.
  destruct (dispatch_library _ _ _ _ _ _ _ _ _ Hruntime Hdispatch)
    as (filename & _ & Hpath). simpl in Hpath. subst path.
  unfold front_end_library, this_read, throw.
  by rewrite decide_False by apply join_nonempty.
Qed.

Lemma compile_with_runtime_library_throws_witness :
  ∃ e w', compile Fixtures.every_engine "Hello {{name}}" "handlebars" "greet" fresh = (inl e, w').
Proof.
  apply (compile_with_runtime_library_throws Fixtures.every_engine
           "Hello {{name}}" "handlebars" "greet" fresh).
  right. left.
Defined.

(** X14. When the text of the ejs client function does not contain
    [function anonymous], [compile] hands that text back unchanged as the
    client, whatever the logical name: nothing is renamed. *)
Theorem ejs_client_without_placeholder node compiler template name w server compiled source :
  handle node (self w) "ejs" = Some compiler →
  native_compile compiler template None = inr server →
  native_compile compiler template (Some ejs_client_options) = inr compiled →
  toString compiled = inr source →
  JS.split_first "function anonymous" source = None →
  ∃ w',
    compile node template "ejs" name w
    = (inr {| library := ""; client := Str source; server := server |}, w').
Proof.
  intros Hhandle Hserver Hclient Hsource Habsent.
  destruct (require_loaded node "ejs" w compiler Hhandle) as [w1 Hrequire].
  exists w1. unfold compile.
  rewrite (compile_with_unfold _ _ _ _ _ _ _ _ Hrequire).
  rewrite (dispatch_ejs _ _ _ _ _ server compiled source) by done. simpl.
  unfold JS.replace. by rewrite Habsent.
Qed.

Lemma ejs_client_without_placeholder_witness :
  ∃ w',
    compile (Fixtures.install [("ejs", Fixtures.handlebars)]) "Hello" "ejs" "greet" fresh
    = (inr {| library := "";
              client := Str "function ret(context) {}";
              server := Function "function ret(context) {}" (λ _, inr "Hello") |}, w').
Proof.
  apply (ejs_client_without_placeholder (Fixtures.install [("ejs", Fixtures.handlebars)])
           Fixtures.handlebars "Hello" "greet" fresh
           (Function "function ret(context) {}" (λ _, inr "Hello"))
           (Function "function ret(context) {}" (λ _, inr "Hello"))
           "function ret(context) {}").
  - reflexivity.
  - reflexivity.
  - reflexivity.
  - reflexivity.
  - reflexivity.
Defined.

(** ** Discovery and compilation together *)

Lemma discover_result_cached node file w engine :
  consistent (self w) →
  (discover node file w).1 = inr engine →
  ∃ candidates,
    own_property supported (Path.extname file) = Some candidates
    ∧ engine ∈ candidates
    ∧ loads node (self w) engine
    ∧ is_Some (required (self (discover node file w).2) !! engine).
Proof.
  intros Hc Hrun.
  destruct (installed (self w) !! Path.extname file) as [resolved|] eqn:Hcache.
  - rewrite (discover_cached _ _ _ resolved) in Hrun |- * by done.
    simpl in *. injection Hrun as ->.
    destruct (resolved_loads node _ _ _ Hc Hcache) as (candidates & Hreg & Hin & Hloads).
    exists candidates. repeat (split; [done |]). by destruct (Hc _ _ Hcache).
  - destruct (own_property supported (Path.extname file)) as [candidates|] eqn:Hregistered.
    + destruct (discover_probing node file w candidates Hcache Hregistered)
        as (events & _ & Hprobe).
      rewrite Hprobe in Hrun |- *. simpl in *.
      destruct (filter _ candidates) as [|first rest] eqn:Hfilter; [done |].
      injection Hrun as ->.
      assert (engine ∈ filter (loads node (self w)) candidates) as Hkept
        by (rewrite Hfilter; by left).
      apply list_elem_of_filter in Hkept as [Hloads Hin].
      exists candidates. repeat (split; [done |]).
      destruct Hloads as [compiler Hhandle].
      rewrite (foldl_probe_loaded _ _ _ _ engine compiler) by done. eauto.
    + by rewrite discover_unknown in Hrun.
Qed.

(** X15. On an object with consistent caches, an engine [discover] returns
    is always one of the candidates registered for the file's extension, one
    the loader could load, and its handle is in the load cache when
    [discover] returns. *)
Theorem discover_returns_registered_engine node file w engine :
  consistent (self w) →
  (discover node file w).1 = inr engine →
  ∃ candidates,
    own_property supported (Path.extname file) = Some candidates
    ∧ engine ∈ candidates
    ∧ loads node (self w) engine
    ∧ is_Some (required (self (discover node file w).2) !! engine).
Proof. apply discover_result_cached. Qed.

Lemma discover_returns_registered_engine_witness :
  ∃ candidates,
    own_property supported (Path.extname "views/page.mustache") = Some candidates
    ∧ "hogan.js" ∈ candidates
    ∧ loads Fixtures.hogan_and_handlebars (self fresh) "hogan.js"
    ∧ is_Some (required (self (discover Fixtures.hogan_and_handlebars
                                 "views/page.mustache" fresh).2) !! "hogan.js").
Proof.
  apply (discover_returns_registered_engine Fixtures.hogan_and_handlebars
           "views/page.mustache" fresh "hogan.js").
  - apply consistent_new.
  - reflexivity.
Defined.

(** X16. Compiling with the engine [discover] has just returned never goes
    back to Node's [require]: the loader serves the handle from the load
    cache. *)
Theorem compile_after_discover_uses_cache node file template name w engine :
  consistent (self w) →
  (discover node file w).1 = inr engine →
  native_requires (log (compile node template engine name (discover node file w).2).2)
  = native_requires (log (discover node file w).2).
Proof.
  intros Hc Hrun.
  destruct (discover_result_cached node file w engine Hc Hrun)
    as (_ & _ & _ & _ & [compiler Hcached]).
  unfold compile. rewrite compile_with_world.
  rewrite (require_cached _ _ _ compiler) by done. simpl.
  rewrite native_requires_app. simpl. by rewrite app_nil_r.
Qed.

Lemma compile_after_discover_uses_cache_witness :
  native_requires
    (log (compile Fixtures.only_ejs "Hello" "ejs" "greet"
            (discover Fixtures.only_ejs "greet.ejs" fresh).2).2)
  = native_requires (log (discover Fixtures.only_ejs "greet.ejs" fresh).2).
Proof.
  apply (compile_after_discover_uses_cache Fixtures.only_ejs "greet.ejs" "Hello" "greet"
           fresh "ejs").
  - apply consistent_new.
  - reflexivity.
Defined.

(** X17. The registry offers an engine the [switch] has no case for: on a
    [.mustache] file that is not yet resolved, when hogan.js does not load
    and mustache does, [discover] returns mustache, and compiling with it
    returns a result with an empty library and undefined client and server,
    without an error. *)
Theorem mustache_compiles_to_nothing node file template name w compiler :
  Path.extname file = ".mustache" →
  installed (self w) !! ".mustache" = None →
  ¬ loads node (self w) "hogan.js" →
  handle node (self w) "mustache" = Some compiler →
  (discover node file w).1 = inr "mustache"
  ∧ ∃ w',
      compile node template "mustache" name (discover node file w).2
      = (inr {| library := ""; client := Undefined; server := Undefined |}, w').
Proof.
  intros Hext Hcache Hhogan Hmustache. split.
  - destruct (discover_probing node file w ["hogan.js"; "mustache"; "handlebars"])
      as (events & _ & ->); [by rewrite Hext | by rewrite Hext |].
    simpl. rewrite filter_cons, decide_False by done.
    rewrite filter_cons, decide_True; [done |].
    unfold loads. rewrite Hmustache. eauto.
  - destruct (require_loaded node "mustache" (discover node file w).2 compiler) as [w1 Hrequire].
    { by rewrite handle_discover. }
    exists w1. unfold compile.
    rewrite (compile_with_unfold _ _ _ _ _ _ _ _ Hrequire).
    rewrite dispatch_outside; [done |].
    unfold dispatch_set. intros Hin.
    repeat (apply elem_of_cons in Hin as [Hin | Hin]; [discriminate |]).
    by apply elem_of_nil in Hin.
Qed.

Lemma mustache_compiles_to_nothing_witness :
  (discover Fixtures.only_mustache "views/page.mustache" fresh).1 = inr "mustache"
  ∧ ∃ w',
      compile Fixtures.only_mustache "Hello {{name}}" "mustache" "page"
        (discover Fixtures.only_mustache "views/page.mustache" fresh).2
      = (inr {| library := ""; client := Undefined; server := Undefined |}, w').
Proof.
  apply (mustache_compiles_to_nothing Fixtures.only_mustache "views/page.mustache"
           "Hello {{name}}" "page" fresh Fixtures.mustache).
  - reflexivity.
  - reflexivity.
  - intros [compiler Hhandle]. discriminate Hhandle.
  - reflexivity.
Defined.

(** X18. [discover] throws nothing but its own two errors: when it fails,
    either the file's extension is not registered and the error is "Unknown
    file extensions", or it is registered, none of its candidates loads, and
    the error is "No valid template engine installed" with those
    candidates.  The loader's errors never come out of it. *)
Theorem discover_throws_only_its_own_errors node file w e w' :
  discover node file w = (inl e, w') →
  (own_property supported (Path.extname file) = None ∧ e = UnknownExtension)
  ∨ ∃ candidates,
      own_property supported (Path.extname file) = Some candidates
      ∧ e = NoBackendAvailable candidates
      ∧ ∀ engine, engine ∈ candidates → ¬ loads node (self w) engine.
Proof.
  intros Hrun.
  destruct (installed (self w) !! Path.extname file) as [resolved|] eqn:Hcache.
  { by rewrite (discover_cached _ _ _ resolved) in Hrun. }
  destruct (own_property supported (Path.extname file)) as [candidates|] eqn:Hregistered.
  - right. exists candidates. split; [done |].
    destruct (discover_probing node file w candidates Hcache Hregistered)
      as (events & _ & Hprobe).
    rewrite Hprobe in Hrun.
    destruct (filter _ candidates) as [|first rest] eqn:Hfilter; [| done].
    injection Hrun as <- _. split; [done |].
    intros engine Hin Hloads.
    assert (engine ∈ filter (loads node (self w)) candidates) as Hkept
      by by apply list_elem_of_filter.
    rewrite Hfilter in Hkept. by apply elem_of_nil in Hkept.
  - left. rewrite discover_unknown in Hrun by done. by injection Hrun as <- _.
Qed.

Lemma discover_throws_only_its_own_errors_witness :
  (own_property supported (Path.extname "a.jade") = None
   ∧ NoBackendAvailable ["jade"] = UnknownExtension)
  ∨ ∃ candidates,
      own_property supported (Path.extname "a.jade") = Some candidates
      ∧ NoBackendAvailable ["jade"] = NoBackendAvailable candidates
      ∧ ∀ engine, engine ∈ candidates → ¬ loads Fixtures.only_ejs (self fresh) engine.
Proof.
  apply (discover_throws_only_its_own_errors Fixtures.only_ejs "a.jade" fresh
           (NoBackendAvailable ["jade"])
           (discover Fixtures.only_ejs "a.jade" fresh).2).
  vm_compute. reflexivity.
Defined.

(** ** Files without an extension *)

Lemma take_while_elem p l (x : ascii) : x ∈ Path.take_while p l → x ∈ l.
Proof.
  induction l as [|c l IH]; simpl; [done |].
  destruct (p c); [| by intros ?%elem_of_nil].
  intros [->|Hin]%elem_of_cons; [by left | right; by apply IH].
Qed.

Lemma drop_while_elem p l (x : ascii) : x ∈ Path.drop_while p l → x ∈ l.
Proof.
  induction l as [|c l IH]; simpl; [done |].
  destruct (p c); [| done]. intros Hin. right. by apply IH.
Qed.

Lemma drop_while_all p (l : list ascii) :
  (∀ x, x ∈ l → p x = true) → Path.drop_while p l = [].
Proof.
  induction l as [|c l IH]; intros Hall; simpl; [done |].
  rewrite (Hall c) by by left. apply IH. intros x Hin. apply Hall. by right.
Qed.

Lemma extname_no_dot file : "."%char ∉ JS.chars file → Path.extname file = "".
Proof.
  intros Hno. unfold Path.extname, Path.last_portion_reversed.
  rewrite drop_while_all; [done |].
  intros x Hin%take_while_elem%drop_while_elem.
  rewrite elem_of_reverse in Hin. cbv beta. unfold Path.is_dot. rewrite negb_true_iff. apply Ascii.eqb_neq.
  intros ->. by apply Hno.
Qed.

(** X19. A path with no dot in it has no extension: on an object with
    consistent caches [discover] throws "Unknown file extensions" for it,
    without calling the loader and without changing anything. *)
Theorem discover_without_dot node file w :
  consistent (self w) →
  "."%char ∉ JS.chars file →
  discover node file w = (inl UnknownExtension, w).
Proof.
  intros Hc Hno. apply discover_unknown; rewrite extname_no_dot by done; [| done].
  destruct (installed (self w) !! "") as [engine|] eqn:Hcache; [| done].
  by destruct (Hc _ _ Hcache) as (_ & candidates & Hregistered & _).
Qed.

Lemma discover_without_dot_witness :
  discover Fixtures.every_engine "views/Makefile" fresh = (inl UnknownExtension, fresh).
Proof.
  apply (discover_without_dot Fixtures.every_engine "views/Makefile" fresh).
  - apply consistent_new.
  - vm_compute. intros Hin.
    repeat (apply elem_of_cons in Hin as [Hin | Hin]; [discriminate |]).
    by apply elem_of_nil in Hin.
Defined.

(** ** The server form *)

(** X20. Whenever the [switch] of [compile] is left normally through one of
    its four cases, the server it leaves renders like the engine itself:
    calling it on a data object gives what the engine's own
    [compile(template)] result gives for that data, through [render] for
    hogan.js and by a plain call for handlebars, ejs and jade. *)
Theorem server_renders_like_engine node compiler template engine name w result w' :
  engine ∈ dispatch_set →
  dispatch node compiler template engine name w = (inr result, w') →
  ∃ compiled,
    native_compile compiler template None = inr compiled
    ∧ ∀ data, invoke result.2 data = render_natively engine compiled data.
Proof.
  unfold dispatch_set. intros Hin.
  unfold dispatch, bind, lift, require_resolve, ret, throw, render_natively.
  repeat (apply elem_of_cons in Hin as [-> | Hin];
          [repeat (case_decide; try done);
           destruct (native_compile compiler template None) as [|compiled];
             simpl; [done |];
           repeat (match goal with
                   | |- context [native_compile ?c ?t (Some ?o)] =>
                       destruct (native_compile c t (Some o))
                   | |- context [native_precompile ?c ?t] => destruct (native_precompile c t)
                   | |- context [toString ?v] => destruct (toString v)
                   | |- context [resolve ?n ?e] => destruct (resolve n e)
                   end; simpl; try done);
           intros [= <- _]; by exists compiled |]).
  by apply elem_of_nil in Hin.
Qed.

Lemma server_renders_like_engine_witness :
  ∃ compiled,
    native_compile Fixtures.hogan "Hello" None = inr compiled
    ∧ ∀ data,
        invoke
          (Some "/app/node_modules/hogan.js/lib/template.js",
           Str (hulk_wrapper "{code: function (c,p,i) { return 'Hello'; }}"),
           Function render_source (call_render (Object (Some (λ _, inr "Hello"))))).2 data
        = render_natively "hogan.js" compiled data.
Proof.
  apply (server_renders_like_engine Fixtures.only_hogan Fixtures.hogan "Hello" "hogan.js"
           "greet" fresh
           (Some "/app/node_modules/hogan.js/lib/template.js",
            Str (hulk_wrapper "{code: function (c,p,i) { return 'Hello'; }}"),
            Function render_source (call_render (Object (Some (λ _, inr "Hello")))))
           fresh).
  - left.
  - vm_compute. reflexivity.
Defined.

(** ** The jade case *)

(** X21. The jade case of the [switch]: for a template jade compiles, an
    engine [require.resolve] finds and a logical name without a dollar sign,
    it leaves the server jade compiled, a client that is the text of jade's
    compile with [client: true], [pretty: true] and [compileDebug: false] in
    which the first [function anonymous] has become [function] followed by
    the logical name, and as library path the file [runtime.js] in the
    directory of jade's main file. *)
Theorem jade_case node compiler template name w server compiled source before after filename :
  native_compile compiler template None = inr server →
  native_compile compiler template (Some jade_client_options) = inr compiled →
  toString compiled = inr source →
  JS.split_first "function anonymous" source = Some (before, after) →
  no_dollar name →
  resolve node "jade" = Some filename →
  dispatch node compiler template "jade" name w
  = (inr (Some (Path.join [Path.dirname filename; "runtime.js"]),
          Str (before +:+ ("function " +:+ name) +:+ after),
          server), w).
Proof.
  intros Hserver Hclient Hsource Hsplit Hname Hresolve. unfold dispatch.
  repeat (case_decide; try done).
  unfold bind, lift, ret, require_resolve. fold jade_client_options.
  rewrite Hserver, Hclient, Hsource, Hresolve.
  by rewrite (replace_first_occurrence _ _ _ before after)
    by (done || by apply no_dollar_function).
Qed.

Lemma jade_case_witness :
  dispatch Fixtures.every_engine Fixtures.ejs "p= name" "jade" "greet" fresh
  = (inr (Some (Path.join [Path.dirname "/app/node_modules/jade/lib/jade.js"; "runtime.js"]),
          Str ("" +:+ ("function " +:+ "greet") +:+ "(locals) { return 'p= name'; }"),
          Function "function (locals) { return 'p= name'; }" (λ _, inr "p= name")), fresh).
Proof.
  apply (jade_case Fixtures.every_engine Fixtures.ejs "p= name" "greet" fresh
           (Function "function (locals) { return 'p= name'; }" (λ _, inr "p= name"))
           (Function "function anonymous(locals) { return 'p= name'; }" (λ _, inr "p= name"))
           "function anonymous(locals) { return 'p= name'; }"
           "" "(locals) { return 'p= name'; }"
           "/app/node_modules/jade/lib/jade.js").
  - reflexivity.
  - reflexivity.
  - reflexivity.
  - reflexivity.
  - unfold no_dollar. vm_compute. intros Hin.
    repeat (apply elem_of_cons in Hin as [Hin | Hin]; [discriminate |]).
    by apply elem_of_nil in Hin.
  - reflexivity.
Defined.
